(** * BWCurve: a shallow embedding of [src/index.ts]

    The TypeScript class [BWCurve] keeps a list of curve points and some
    metadata, offers a chain of in-place transforms over the points and
    serialises the document with [toBuffer] into the byte layout of a
    Bitwig [.bwcurve] file.

    The embedding follows the source:
    - a JavaScript [number] is an IEEE-754 double: the kernel's primitive
      [float], whose rounding and special values (NaN, the two zeros, the
      infinities) are those of the JavaScript operators;
    - a JavaScript string is its sequence of UTF-16 code units;
    - a [Uint8Array] is a list of integers in [0, 256);
    - a call that can throw returns a [Completion];
    - a transform, which returns [this], is the function that maps the
      receiver before the call to the receiver after it;
    - [toBuffer] is a function of the receiver that returns the receiver
      after the call together with the completion of the call. *)

From Stdlib Require Import ZArith NArith String Ascii List Bool Lia.
From Stdlib Require Import Floats HexadecimalString.
Import ListNotations.

Local Open Scope Z_scope.

(** ** The JavaScript runtime the source relies on *)

Module JS.

(** *** Completions: a normal value or a thrown exception *)

Inductive Exception : Type :=
| TypeError
| RangeError
| Error (message : string).

Inductive Completion (A : Type) : Type :=
| Return (a : A)
| Throw (e : Exception).

Arguments Return {A} a.
Arguments Throw {A} e.

Definition bindC {A B} (c : Completion A) (k : A -> Completion B) : Completion B :=
  match c with
  | Return a => k a
  | Throw e => Throw e
  end.

(** [Array.prototype.map] with a callback that may throw: the elements are
    visited from left to right and the first exception ends the loop. *)
Fixpoint mapC {A B} (f : A -> Completion B) (l : list A) : Completion (list B) :=
  match l with
  | [] => Return []
  | a :: l' =>
      bindC (f a) (fun b => bindC (mapC f l') (fun bs => Return (b :: bs)))
  end.

(** *** Strings: sequences of UTF-16 code units *)

Definition jsstring := list N.

(** A string literal of the source (all of them are ASCII). *)
Definition lit (s : string) : jsstring :=
  map N_of_ascii (list_ascii_of_string s).

(** [Number.prototype.toString(16)] on a non-negative integer: lower-case
    digits, no padding, ["0"] for zero. *)
Definition toString16 (n : N) : jsstring :=
  lit (NilZero.string_of_uint (N.to_hex_uint n)).

(** [Array.prototype.join(sep)] on an array of strings. *)
Fixpoint join (sep : jsstring) (l : list jsstring) : jsstring :=
  match l with
  | [] => []
  | [s] => s
  | s :: l' => s ++ sep ++ join sep l'
  end.

(** The class [\s] of a regular expression: WhiteSpace and LineTerminator. *)
Definition is_whitespace (c : N) : bool :=
  ((9 <=? c) && (c <=? 13) || (c =? 32) || (c =? 160) || (c =? 5760)
   || (8192 <=? c) && (c <=? 8202) || (c =? 8232) || (c =? 8233)
   || (c =? 8239) || (c =? 8287) || (c =? 12288) || (c =? 65279))%N.

(** The value of a code unit as a digit of radix 16, if it is one. *)
Definition hex_digit (c : N) : option Z :=
  if ((48 <=? c) && (c <=? 57))%N then Some (Z.of_N c - 48)
  else if ((97 <=? c) && (c <=? 102))%N then Some (Z.of_N c - 87)
  else if ((65 <=? c) && (c <=? 70))%N then Some (Z.of_N c - 55)
  else None.

(** The longest prefix of radix-16 digits, as a number; [None] when the
    prefix is empty. *)
Fixpoint hex_prefix (acc : option Z) (s : jsstring) : option Z :=
  match s with
  | [] => acc
  | c :: s' =>
      match hex_digit c with
      | Some d =>
          hex_prefix (Some (16 * match acc with Some a => a | None => 0 end + d)) s'
      | None => acc
      end
  end.

Fixpoint trim_start (s : jsstring) : jsstring :=
  match s with
  | c :: s' => if is_whitespace c then trim_start s' else s
  | [] => []
  end.

(** [parseInt(s, 16)]: leading white space, an optional sign, an optional
    [0x] or [0X], then the longest prefix of digits. [None] stands for NaN;
    the result [-0] is rendered [0], which [ToUint8] does not distinguish. *)
Definition parseInt16 (s : jsstring) : option Z :=
  let s := trim_start s in
  let '(sign, s) :=
    match s with
    | 45%N :: s' => (-1, s')
    | 43%N :: s' => (1, s')
    | _ => (1, s)
    end in
  let s :=
    match s with
    | 48%N :: 120%N :: s' => s'
    | 48%N :: 88%N :: s' => s'
    | _ => s
    end in
  match hex_prefix None s with
  | Some v => Some (sign * v)
  | None => None
  end.

(** [===] on strings. *)
Fixpoint jsstring_eqb (a b : jsstring) : bool :=
  match a, b with
  | [], [] => true
  | c :: a', d :: b' => (c =? d)%N && jsstring_eqb a' b'
  | _, _ => false
  end.

(** *** Typed arrays *)

Definition Uint8Array := list Z.

(** [ToUint8]: NaN becomes 0, an integer is taken modulo 256. *)
Definition ToUint8 (n : option Z) : Z :=
  match n with
  | Some v => v mod 256
  | None => 0
  end.

(** [new Uint8Array(n)]: [n] zero bytes. *)
Definition new_Uint8Array (n : nat) : Uint8Array := repeat 0 n.

(** [target.set(source, offset)]: copies [source] into [target] at [offset];
    a RangeError when it does not fit. *)
Definition Uint8Array_set (target source : Uint8Array) (offset : nat)
  : Completion Uint8Array :=
  if (offset + length source <=? length target)%nat
  then Return (firstn offset target ++ source
               ++ skipn (offset + length source) target)
  else Throw RangeError.

(** *** Numbers: IEEE-754 binary64 *)

Definition number := float.

Definition is_pos_zero (n : number) : bool :=
  match classify n with PZero => true | _ => false end.

Definition is_neg_zero (n : number) : bool :=
  match classify n with NZero => true | _ => false end.

(** The loop of [Math.max]: NaN as soon as one argument is NaN, [+0] above
    [-0], otherwise the greater by [>]. *)
Fixpoint Math_max_loop (highest : number) (coerced : list number) : number :=
  match coerced with
  | [] => highest
  | n :: rest =>
      if is_nan n then nan
      else
        let highest := if is_pos_zero n && is_neg_zero highest then n else highest in
        let highest := if ltb highest n then n else highest in
        Math_max_loop highest rest
  end.

Definition Math_max (args : list number) : number :=
  Math_max_loop neg_infinity args.

Fixpoint Math_min_loop (lowest : number) (coerced : list number) : number :=
  match coerced with
  | [] => lowest
  | n :: rest =>
      if is_nan n then nan
      else
        let lowest := if is_neg_zero n && is_pos_zero lowest then n else lowest in
        let lowest := if ltb n lowest then n else lowest in
        Math_min_loop lowest rest
  end.

Definition Math_min (args : list number) : number :=
  Math_min_loop infinity args.

Definition Math_abs (n : number) : number := PrimFloat.abs n.

(** [Math.sign]: NaN and the zeros are returned as they are. *)
Definition Math_sign (n : number) : number :=
  if is_nan n then n
  else if is_zero n then n
  else if ltb n 0 then (-1)%float else 1%float.

(** [Math.PI], the double nearest to pi. *)
Definition Math_PI : number := 0x1.921fb54442d18p+1%float.

(** The 64 bits of a double. For every double but NaN they are fixed by
    IEEE 754. JavaScript does not tell NaNs apart and leaves the bits
    written for NaN to the engine (sign and payload may differ from one
    engine, and one computation, to the next); the quiet NaN with an empty
    payload stands for them here, so what is said below of the bytes of a
    double is said of doubles that are not NaN. *)
Definition float64_bits (v : number) : Z :=
  let sign (s : bool) := if s then 2 ^ 63 else 0 in
  match Prim2SF v with
  | S754_zero s => sign s
  | S754_infinity s => sign s + 2047 * 2 ^ 52
  | S754_nan => 2047 * 2 ^ 52 + 2 ^ 51
  | S754_finite s m e =>
      sign s + (if 2 ^ 52 <=? Z.pos m
                then (e + 1075) * 2 ^ 52 + (Z.pos m - 2 ^ 52)
                else Z.pos m)
  end.

Definition byte_of (bits : Z) (i : Z) : Z :=
  Z.land (Z.shiftr bits (8 * i)) 255.

(** The eight bytes of a double, most significant first. *)
Definition float64_be (v : number) : Uint8Array :=
  let b := float64_bits v in
  [byte_of b 7; byte_of b 6; byte_of b 5; byte_of b 4;
   byte_of b 3; byte_of b 2; byte_of b 1; byte_of b 0].

Arguments float64_be v%_float.

(** [new DataView(buf).setFloat64(byteOffset, value, false)]: the eight
    bytes of [value], big-endian, over the bytes at [byteOffset]; a
    RangeError when they do not fit. *)
Definition DataView_setFloat64 (buf : Uint8Array) (byteOffset : nat) (value : number)
  : Completion Uint8Array :=
  if (byteOffset + 8 <=? length buf)%nat
  then Return (firstn byteOffset buf ++ float64_be value
               ++ skipn (byteOffset + 8) buf)
  else Throw RangeError.

(** *** Arrays *)

(** [array.splice(start, 1)] with an integral [start]: a negative [start]
    counts from the end and is clamped at 0, a [start] beyond the end is
    clamped at the length; at most one element is removed. *)
Definition splice1 {A} (l : list A) (start : Z) : list A :=
  let len := Z.of_nat (length l) in
  let actualStart :=
    if start <? 0 then Z.max (len + start) 0 else Z.min start len in
  let actualDeleteCount := Z.min (Z.max 1 0) (len - actualStart) in
  firstn (Z.to_nat actualStart) l
  ++ skipn (Z.to_nat (actualStart + actualDeleteCount)) l.

End JS.

Import JS.

Notation "x <- c ;; k" := (bindC c (fun x => k))
  (at level 61, c at next level, right associativity).

Notation "' pat <- c ;; k" :=
  (bindC c (fun v => match v with pat => k end))
  (at level 61, pat pattern, c at next level, right associativity).

(** ** utils *)

(** [noSpaces.match(/.{1,2}/g)]: the string cut in pairs of code units, the
    last one alone when the length is odd; [null] when there is no match,
    that is for the empty string. After the removal of [\s] no line
    terminator is left for [.] to refuse. *)
Fixpoint pairs (s : jsstring) (fuel : nat) : list jsstring :=
  match fuel with
  | O => []
  | S fuel' =>
      match s with
      | [] => []
      | [a] => [[a]]
      | a :: b :: s' => [a; b] :: pairs s' fuel'
      end
  end.

Definition match_pairs (s : jsstring) : option (list jsstring) :=
  match s with
  | [] => None
  | _ => Some (pairs s (length s))
  end.

Definition fromHexString (hexString : jsstring) : Completion Uint8Array :=
  let noSpaces := filter (fun c => negb (is_whitespace c)) hexString in
  match match_pairs noSpaces with
  | None => Throw TypeError
  | Some bytes => Return (map (fun byte => ToUint8 (parseInt16 byte)) bytes)
  end.

Definition stringToHex (str : jsstring) : jsstring :=
  join [] (map (fun c => toString16 c) str).

(** ** The data model *)

Record BWCurvePoint : Type := {
  x : number;
  y : number;
  slope : number
}.

Inductive BWCurveCategories : Type :=
| Envelope
| Lookup
| Periodic
| Sequence.

(** The string a category is at run time. *)
Definition category_text (c : BWCurveCategories) : jsstring :=
  match c with
  | Envelope => lit "Envelope"
  | Lookup => lit "Lookup"
  | Periodic => lit "Periodic"
  | Sequence => lit "Sequence"
  end.

Record BWCurveMetadata : Type := {
  creator : jsstring;
  description : jsstring;
  name : jsstring;
  tags : list jsstring;
  category : BWCurveCategories
}.

Record InternalData : Type := {
  internal_length : number
}.

Record BWCurve : Type := {
  internal : InternalData;
  metadata : BWCurveMetadata;
  points : list BWCurvePoint
}.

(** [new BWCurve()] *)
Definition new_BWCurve : BWCurve := {|
  points := [];
  internal := {| internal_length := 1%float |};
  metadata := {|
    name := lit "default";
    creator := lit "default";
    category := Envelope;
    description := lit "default";
    tags := [lit "default"]
  |}
|}.

Definition with_points (this : BWCurve) (ps : list BWCurvePoint) : BWCurve :=
  {| internal := internal this; metadata := metadata this; points := ps |}.

Definition with_metadata (this : BWCurve) (m : BWCurveMetadata) : BWCurve :=
  {| internal := internal this; metadata := m; points := points this |}.

(** [{...p, x: v}] and [{...p, y: v}] *)
Definition with_x (p : BWCurvePoint) (v : number) : BWCurvePoint :=
  {| x := v; y := y p; slope := slope p |}.

Definition with_y (p : BWCurvePoint) (v : number) : BWCurvePoint :=
  {| x := x p; y := v; slope := slope p |}.

(** ** The transforms

    Every transform returns [this]; it is modelled by the receiver after the
    call. The point array is replaced or extended, never shared with a
    second live document by the transforms below, except by [spliceCurve] on
    an empty receiver, which takes the argument's array itself. *)

Definition getMaxX (this : BWCurve) : number :=
  Math_max (List.map x (points this)).

Definition get_tags (this : BWCurve) : list jsstring := tags (metadata this).

Definition setTags (this : BWCurve) (ts : list jsstring) : BWCurve :=
  with_metadata this
    {| creator := creator (metadata this);
       description := description (metadata this);
       name := name (metadata this);
       tags := ts;
       category := category (metadata this) |}.

(** [Array.prototype.map]: the callback receives the element, its index and
    the array that is being mapped. *)
Fixpoint map_from {A B} (callback : A -> nat -> list A -> B)
    (array : list A) (index : nat) (rest : list A) : list B :=
  match rest with
  | [] => []
  | a :: rest' => callback a index array :: map_from callback array (S index) rest'
  end.

Definition Array_map {A B} (callback : A -> nat -> list A -> B) (array : list A)
  : list B :=
  map_from callback array 0%nat array.

Definition map (this : BWCurve)
    (callback : BWCurvePoint -> nat -> list BWCurvePoint -> BWCurvePoint) : BWCurve :=
  with_points this (Array_map callback (points this)).

Definition clamp (this : BWCurve) : BWCurve :=
  map this (fun p _ _ =>
    {| x := x p;
       y := Math_max [0%float; Math_min [1%float; y p]];
       slope := Math_max [(-1)%float; Math_min [1%float; slope p]] |}).

Definition scaleX (this : BWCurve) (factor : number) : BWCurve :=
  with_points this (List.map (fun p => with_x p (x p * factor)%float) (points this)).

(** [pushPoints(...points)]: each argument is a point or an array of points. *)
Inductive PointsArg : Type :=
| OnePoint (p : BWCurvePoint)
| PointArray (ps : list BWCurvePoint).

Definition pushPoints (this : BWCurve) (args : list PointsArg) : BWCurve :=
  fold_left
    (fun this point =>
       match point with
       | PointArray ps => with_points this (points this ++ ps)
       | OnePoint p => with_points this (points this ++ [p])
       end)
    args this.

Definition spliceCurve (this curve : BWCurve) : BWCurve :=
  if (length (points curve) =? 0)%nat then this
  else if (length (points this) =? 0)%nat then with_points this (points curve)
  else
    let maxX := getMaxX this in
    let pointsWithOffset :=
      List.map (fun p => with_x p (x p + maxX)%float) (points curve) in
    pushPoints this [PointArray pointsWithOffset].

Definition reverse (this : BWCurve) : BWCurve :=
  let maxX := getMaxX this in
  with_points this
    (List.map (fun p => with_x p (maxX - x p)%float) (rev (points this))).

(** [structuredClone] of the metadata and of the points: the same values in
    fresh storage. *)
Definition clone (this : BWCurve) : BWCurve :=
  {| internal := internal new_BWCurve;
     metadata := metadata this;
     points := points this |}.

Definition double (this : BWCurve) : BWCurve :=
  if (length (points this) <=? 1)%nat then this
  else
    let maxX := getMaxX this in
    let this := scaleX this (0.5 * maxX)%float in
    spliceCurve this this.

Definition mirror (this : BWCurve) : BWCurve :=
  if (length (points this) <=? 1)%nat then this
  else
    let maxX := getMaxX this in
    let this := scaleX this 0.5%float in
    let clone := reverse (clone this) in
    spliceCurve this clone.

Definition pointCount (this : BWCurve) : nat := length (points this).

Definition removePoint (this : BWCurve) (index : Z) : BWCurve :=
  with_points this (splice1 (points this) index).

(** *** clip

    [Math.tanh], [Math.sin] and the operator [**] are the engine's: the
    language standard fixes their values at a few arguments and leaves the
    rest to the implementation. They are parameters of [clip]. *)

Section Clip.

Variable Math_tanh : number -> number.
Variable Math_sin : number -> number.
Variable Math_pow : number -> number -> number.

Definition clip (this : BWCurve) (algorithm : jsstring) : BWCurve :=
  if jsstring_eqb algorithm (lit "tanh") then
    map this (fun p _ _ => with_y p (Math_tanh (5 * y p)%float))
  else if jsstring_eqb algorithm (lit "sin") then
    map this (fun p _ _ =>
      with_y p
        (if ltb (2 / 3)%float (Math_abs (y p)) then Math_sign (y p)
         else Math_sin ((3 * Math_PI * y p) / 4)%float))
  else if jsstring_eqb algorithm (lit "cubic") then
    map this (fun p _ _ =>
      with_y p
        (if ltb (2 / 3)%float (Math_abs (y p)) then Math_sign (y p)
         else ((9 * y p) / 4 - (27 * Math_pow (y p) 3) / 16)%float))
  else this.

End Clip.

(** ** The codec *)

(** A method that reads [this]: the receiver after the call and the
    completion of the call. *)
Definition Method (A : Type) : Type := BWCurve -> BWCurve * Completion A.

Definition retM {A} (a : A) : Method A := fun this => (this, Return a).

Definition bindM {A B} (m : Method A) (k : A -> Method B) : Method B :=
  fun this =>
    match m this with
    | (this', Return a) => k a this'
    | (this', Throw e) => (this', Throw e)
    end.

Definition liftC {A} (c : Completion A) : Method A := fun this => (this, c).

(** An expression over the fields of [this]. *)
Definition read {A} (f : BWCurve -> A) : Method A :=
  fun this => (this, Return (f this)).

Notation "x <~ m ;; k" := (bindM m (fun x => k))
  (at level 61, m at next level, right associativity).

(** [...fromHexString(e)] where [e] reads [this]. *)
Definition hexOf (e : BWCurve -> jsstring) : Method Uint8Array :=
  s <~ read e ;; liftC (fromHexString s).

(** [...fromHexString('..')] on a literal. *)
Definition hex (s : string) : Method Uint8Array := hexOf (fun _ => lit s).

(** An array literal made of spread elements: they are evaluated from left
    to right, the first exception ends the evaluation. *)
Fixpoint arrayLiteral (elements : list (Method Uint8Array)) : Method Uint8Array :=
  match elements with
  | [] => retM []
  | e :: rest =>
      a <~ e ;; b <~ arrayLiteral rest ;; retM (a ++ b)
  end.

(** The callback of [this.points.map] in [toBuffer]: the record of a point,
    laid out with zeros where the three doubles are then written. *)
Definition pointStructure (p : BWCurvePoint) : Completion Uint8Array :=
  t0 <- fromHexString (lit "00 12 7E 00 00 35 FD 07") ;;
  t1 <- fromHexString (lit "00 00 35 FE 07") ;;
  t2 <- fromHexString (lit "00 00 35 FF 07") ;;
  t3 <- fromHexString (lit "00 00 00 00 00") ;;
  let structure :=
    t0 ++ new_Uint8Array 8 ++ t1 ++ new_Uint8Array 8 ++ t2
       ++ new_Uint8Array 8 ++ t3 in
  s1 <- DataView_setFloat64 structure 8 (y p) ;;
  s2 <- DataView_setFloat64 s1 21 (x p) ;;
  s3 <- DataView_setFloat64 s2 34 (slope p) ;;
  Return s3.

(** The body of the second [forEach] of [toBuffer]: a record is copied at
    the running offset, which then moves past it. *)
Definition mergeStep (st : Completion (Uint8Array * nat)) (p : Uint8Array)
  : Completion (Uint8Array * nat) :=
  '(mergedPoints, offset) <- st ;;
  m <- Uint8Array_set mergedPoints p offset ;;
  Return (m, (offset + length p)%nat).

(** The two [forEach] loops over the records: the total length, then the
    records copied one after the other. *)
Definition mergePoints (points : list Uint8Array) : Completion Uint8Array :=
  let pointsLength := fold_left (fun acc p => (acc + length p)%nat) points 0%nat in
  st <- fold_left mergeStep points (Return (new_Uint8Array pointsLength, 0%nat)) ;;
  Return (fst st).

Definition len (s : jsstring) : N := N.of_nat (length s).

(** The length byte of the tags field. *)
Definition tagsLength (this : BWCurve) : jsstring :=
  if (length (get_tags this) =? 0)%nat then lit "00"
  else toString16 (len (join (lit "0") (get_tags this))).

Definition tagsHex (this : BWCurve) : jsstring :=
  join (lit "20") (List.map (fun t => stringToHex t) (get_tags this)).

(** The elements of the array literal of [toBuffer], in three runs: from the
    header to the end of the metadata, the points, the closing fields. *)
Definition headerAndMetadata (spacer : Uint8Array) : list (Method Uint8Array) :=
  [ hex "42 74 57 67 30 30 30 33 30 30 30 32 30 30 30 30 30 30 30 30 31 35 30 65 30 30 30 30 30 30 30 30 30 30 30 30 30 30 30 30 30 30";
    retM spacer;
    hex "04";
    retM spacer;
    hex "04 6D 65 74 61";
    retM spacer;
    hex "01";
    retM spacer;
    hex "18 61 70 70 6C 69 63 61 74 69 6F 6E 5F 76 65 72 73 69 6F 6E 5F 6E 61 6D 65 08";
    retM spacer;
    hex "05 35 2E 32 2E 32";
    retM spacer;
    hex "01";
    retM spacer;
    hex "06 62 72 61 6E 63 68 08";
    retM spacer;
    hex "08 72 65 6C 65 61 73 65 73";
    retM spacer;
    hex "01";
    retM spacer;
    hex "07 63 6F 6D 6D 65 6E 74";
    hex "08";
    retM spacer;
    hexOf (fun this => toString16 (len (description (metadata this))));
    hexOf (fun this => stringToHex (description (metadata this)));
    retM spacer;
    hex "01";
    retM spacer;
    hex "07 63 72 65 61 74 6F 72 08";
    retM spacer;
    hexOf (fun this => toString16 (len (creator (metadata this))));
    hexOf (fun this => stringToHex (creator (metadata this)));
    retM spacer;
    hex "01";
    retM spacer;
    hex "0E";
    hex "63 75 72 76 65 5F 63 61 74 65 67 6F 72 79 08";
    retM spacer;
    hexOf (fun this => toString16 (len (category_text (category (metadata this)))));
    hexOf (fun this => stringToHex (category_text (category (metadata this))));
    retM spacer;
    hex "01";
    retM spacer;
    hex "0A";
    hex "63 75 72 76 65 5F 6B 69 6E 64 01 02";
    retM spacer;
    hex "01";
    retM spacer;
    hex "0B 72 65 76 69 73 69 6F 6E 5F 69 64 08";
    retM spacer;
    hex "28 31 64 39 35 34 37 37 33 36 65 34 32 35 37 64 36 61 61 37 64 33 34 66 39 66 64 64 39 62 38 63 34 66 39 39 38 34 61 36 30";
    retM spacer;
    hex "01";
    retM spacer;
    hex "0B 72 65 76 69 73 69 6F 6E 5F 6E 6F 03 00 02 45 A0";
    retM spacer;
    hex "01";
    retM spacer;
    hex "04 74 61 67 73 08";
    retM spacer;
    hexOf tagsLength;
    hexOf tagsHex;
    retM spacer;
    hex "01";
    retM spacer;
    hex "04 74 79 70 65 08";
    retM spacer;
    hex "18 61 70 70 6C 69 63 61 74 69 6F 6E 2F 62 69 74 77 69 67 2D 63 75 72 76 65";
    retM spacer;
    hex "00";
    hex "20 20 20 20 20 20 20 20 20 20 20 20 20 20 20 20 0A";
    hex "00" ].

Definition pointsDeclaration : string :=
  "00 12 7F 00 00 36 2D 01 02 00 00 36 46 05 01 00 00 36 01 01 20 00 00 36 02 01 01 00 00 36 35 01 00 00 00 36 03 12 00".

Definition pointsListEnd : string :=
  "00 00 03 00 00 37 88 01 FF 00 00 36 65 01 FF 00 00 36 66 01 FF 00".

Definition pointsBlock (mergedPoints : Uint8Array) : list (Method Uint8Array) :=
  [ hex pointsDeclaration;
    retM mergedPoints;
    hex pointsListEnd ].

Definition trailerBlock (spacer stop : Uint8Array) : list (Method Uint8Array) :=
  [ hex "00 36 0B 08";
    retM spacer;
    hexOf (fun this => toString16 (len (name (metadata this))));
    hexOf (fun this => stringToHex (name (metadata this)));
    retM stop;
    hex "00 36 21 08";
    retM spacer;
    hexOf (fun this => toString16 (len (creator (metadata this))));
    hexOf (fun this => stringToHex (creator (metadata this)));
    retM stop;
    hex "00 36 23 08";
    retM spacer;
    hexOf (fun this => toString16 (len (description (metadata this))));
    hexOf (fun this => stringToHex (description (metadata this)));
    retM stop;
    hex "00 36 22 08";
    retM spacer;
    hexOf (fun this => toString16 (len (category_text (category (metadata this)))));
    hexOf (fun this => stringToHex (category_text (category (metadata this))));
    retM stop;
    hex "00 36 A6 08";
    retM spacer;
    hexOf tagsLength;
    hexOf tagsHex;
    retM stop;
    retM spacer ].

Definition toBuffer : Method Uint8Array :=
  spacer <~ liftC (fromHexString (lit "00 00 00")) ;;
  stop <~ liftC (fromHexString (lit "00")) ;;
  pts <~ read points ;;
  points <~ liftC (mapC pointStructure pts) ;;
  mergedPoints <~ liftC (mergePoints points) ;;
  arrayLiteral
    (headerAndMetadata spacer ++ pointsBlock mergedPoints
       ++ trailerBlock spacer stop).

(** [BWCurve.fromBuffer]: its body is one [throw]. *)
Definition fromBuffer (buffer : Uint8Array) : Completion BWCurve :=
  Throw (Error "Not implemented (yet)").

(** ** Definitions used by the statements *)

Definition pt (px py ps : number) : BWCurvePoint :=
  {| x := px; y := py; slope := ps |}.

Arguments pt (px py ps)%_float.

(** [lo <= v && v <= hi], as JavaScript evaluates it: false when [v] is NaN. *)
Definition in_range (lo hi v : number) : bool := leb lo v && leb v hi.

(** [Math.max(lo, Math.min(1, v))], the expression of [clamp]. *)
Definition clamped (lo v : number) : number :=
  Math_max [lo; Math_min [1%float; v]].

Arguments in_range (lo hi v)%_float.
Arguments clamped (lo v)%_float.

(** The callback of [clamp]. *)
Definition clampPoint (p : BWCurvePoint) : BWCurvePoint :=
  pt (x p) (clamped 0 (y p)) (clamped (-1) (slope p)).

(** What [clamp] leaves in a coordinate: NaN stays NaN, a number is brought
    into the range. *)
Definition clamped_to (lo hi before after : number) : Prop :=
  if is_nan before then is_nan after = true
  else in_range lo hi after = true.

Arguments clamped_to (lo hi before after)%_float.

(** The x of the point at position [i], NaN when there is none. *)
Definition x_at (ps : list BWCurvePoint) (i : nat) : number :=
  match nth_error ps i with
  | Some p => x p
  | None => nan
  end.

(** Three points whose y are 0, 1 and 0.5. *)
Definition clip_samples : BWCurve :=
  with_points new_BWCurve [pt 0 0 0; pt 1 1 0; pt 2 0.5 0].

(** One engine's operations, for running [clip]: a rational approximation of
    tanh, a polynomial one of sin, and powers by repeated multiplication. *)
Definition approx_tanh (v : number) : number :=
  (v * (27 + v * v) / (27 + 9 * (v * v)))%float.

Definition approx_sin (v : number) : number :=
  (v - v * v * v / 6)%float.

Definition approx_pow (b e : number) : number :=
  (if eqb e 3 then b * b * b else if eqb e 2 then b * b else nan)%float.

(** The two-point ramp [(0,0,0), (1,1,0)]. *)
Definition unit_ramp : BWCurve :=
  with_points new_BWCurve [pt 0 0 0; pt 1 1 0].

(** The ramp [(0,0,0), (2,1,0)], whose greatest x is 2. *)
Definition wide_ramp : BWCurve :=
  with_points new_BWCurve [pt 0 0 0; pt 2 1 0].

(** A document with one point whose y is NaN, as [fitInYRange] leaves it on
    a flat curve (0 times Infinity). *)
Definition nan_curve : BWCurve :=
  with_points new_BWCurve [pt 0 nan 0].

(** A freshly built document without tags: [new BWCurve().setTags([])]. *)
Definition untagged : BWCurve := setTags new_BWCurve [].

(** The record of a point as the format lays it out: a tag of eight bytes,
    y, a tag of five bytes, x, a tag of five bytes, the slope, five zero
    bytes; the doubles big-endian. *)
Definition tagY : Uint8Array := [0; 18; 126; 0; 0; 53; 253; 7].
Definition tagX : Uint8Array := [0; 0; 53; 254; 7].
Definition tagSlope : Uint8Array := [0; 0; 53; 255; 7].
Definition recordEnd : Uint8Array := [0; 0; 0; 0; 0].

Definition pointRecord (p : BWCurvePoint) : Uint8Array :=
  tagY ++ float64_be (y p) ++ tagX ++ float64_be (x p)
       ++ tagSlope ++ float64_be (slope p) ++ recordEnd.

(** The bytes before the first record and after the last one. *)
Definition declarationBytes : Uint8Array :=
  [0; 18; 127; 0; 0; 54; 45; 1; 2; 0; 0; 54; 70; 5; 1; 0; 0; 54; 1; 1; 32;
   0; 0; 54; 2; 1; 1; 0; 0; 54; 53; 1; 0; 0; 0; 54; 3; 18; 0].

Definition terminatorBytes : Uint8Array :=
  [0; 0; 3; 0; 0; 55; 136; 1; 255; 0; 0; 54; 101; 1; 255; 0; 0; 54; 102; 1;
   255; 0].

Definition spacerBytes : Uint8Array := [0; 0; 0].
Definition stopBytes : Uint8Array := [0].

(** The elements of the array literal for a receiver. *)
Definition bufferElements (this : BWCurve) : list (Method Uint8Array) :=
  headerAndMetadata spacerBytes
  ++ pointsBlock (flat_map pointRecord (points this))
  ++ trailerBlock spacerBytes stopBytes.

(** A string [fromHexString] accepts for sure: not empty and free of white
    space. *)
Definition solid (s : jsstring) : Prop :=
  s <> [] /\ Forall (fun c => is_whitespace c = false) s.

Definition returns (this : BWCurve) (m : Method Uint8Array) : Prop :=
  exists bytes, snd (m this) = Return bytes.

(** The documents [toBuffer] serialises: no empty name, creator or
    description, and tags that are neither [[]] nor [['']]. *)
Definition encodable (this : BWCurve) : Prop :=
  name (metadata this) <> [] /\
  creator (metadata this) <> [] /\
  description (metadata this) <> [] /\
  get_tags this <> [] /\
  get_tags this <> [[]].

(** A point none of whose coordinates is NaN: the points whose bytes are
    the same on every engine. *)
Definition without_nan (p : BWCurvePoint) : Prop :=
  is_nan (x p) = false /\ is_nan (y p) = false /\ is_nan (slope p) = false.

(** The record of a point with the field lengths of the claim: tags of seven,
    five and five bytes and a trailer of five. *)
Definition claimedRecord (tag t1 t2 trailer : Uint8Array) (p : BWCurvePoint)
  : Uint8Array :=
  tag ++ float64_be (y p) ++ t1 ++ float64_be (x p)
      ++ t2 ++ float64_be (slope p) ++ trailer.

(** A method leaves [this] as it found it. *)
Definition readonly {A} (m : Method A) : Prop :=
  forall this, fst (m this) = this.

(** A method returns, or throws a TypeError. *)
Definition throws_only_TypeError {A} (m : Method A) : Prop :=
  forall this e, snd (m this) = Throw e -> e = TypeError.

(** ** The runtime: minimum, maximum, comparison *)

Section Extrema.

Local Open Scope float_scope.

Lemma Math_min_upper (hi v : number) :
  is_nan hi = false -> is_pos_zero hi = false -> ltb hi infinity = true ->
  Math_min [hi; v] = if is_nan v then nan else if ltb v hi then v else hi.
Proof.
  intros Hn Hz Hlt. unfold Math_min, Math_min_loop. cbv zeta.
  change (is_pos_zero infinity) with false. rewrite andb_false_r.
  rewrite Hn, Hlt, Hz, andb_false_r. reflexivity.
Qed.

Lemma Math_max_lower (lo v : number) :
  is_nan lo = false -> is_neg_zero lo = false -> ltb neg_infinity lo = true ->
  Math_max [lo; v] = if is_nan v then nan else if ltb lo v then v else lo.
Proof.
  intros Hn Hz Hlt. unfold Math_max, Math_max_loop. cbv zeta.
  change (is_neg_zero neg_infinity) with false. rewrite andb_false_r.
  rewrite Hn, Hlt, Hz, andb_false_r. reflexivity.
Qed.

Lemma ltb_leb (a b : number) : ltb a b = true -> leb a b = true.
Proof.
  rewrite ltb_spec, leb_spec. unfold SFltb, SFleb.
  destruct (SFcompare _ _) as [[ | | ]|]; congruence.
Qed.

(** The lower bound [lo] is a number below 1 and not the negative zero. *)
Variable lo : number.
Hypothesis lo_number : is_nan lo = false.
Hypothesis lo_not_neg_zero : is_neg_zero lo = false.
Hypothesis lo_finite : ltb neg_infinity lo = true.
Hypothesis lo_below_one : ltb lo 1 = true.
Hypothesis lo_irrefl : ltb lo lo = false.
Hypothesis lo_refl : leb lo lo = true.

Lemma clamped_cases (v : number) :
  clamped lo v =
  if is_nan v then nan
  else if ltb v 1 then (if ltb lo v then v else lo) else 1.
Proof.
  unfold clamped.
  rewrite Math_min_upper, Math_max_lower by (assumption || reflexivity).
  destruct (is_nan v) eqn:E; [reflexivity|].
  destruct (ltb v 1) eqn:E1.
  - rewrite E. reflexivity.
  - change (is_nan 1) with false. cbv iota. rewrite lo_below_one. reflexivity.
Qed.

Lemma clamped_idempotent (v : number) :
  clamped lo (clamped lo v) = clamped lo v.
Proof.
  rewrite !clamped_cases.
  destruct (is_nan v) eqn:E; [reflexivity|].
  destruct (ltb v 1) eqn:E1; [|reflexivity].
  destruct (ltb lo v) eqn:E2.
  - rewrite E, E1, E2. reflexivity.
  - rewrite lo_number, lo_below_one, lo_irrefl. reflexivity.
Qed.

Lemma clamped_in_range (v : number) :
  is_nan v = false -> in_range lo 1 (clamped lo v) = true.
Proof.
  intros E. unfold in_range. rewrite clamped_cases, E.
  apply andb_true_intro.
  destruct (ltb v 1) eqn:E1.
  - destruct (ltb lo v) eqn:E2; auto using ltb_leb.
  - split; auto using ltb_leb.
Qed.

Lemma clamped_nan (v : number) :
  is_nan v = true -> clamped lo v = nan.
Proof. intros E. rewrite clamped_cases, E. reflexivity. Qed.

End Extrema.

(** ** The runtime and the utilities on examples *)

Example fromHexString_tag :
  fromHexString (lit "00 12 7E 00 00 35 FD 07") = Return tagY.
Proof. reflexivity. Qed.

Example fromHexString_empty : fromHexString [] = Throw TypeError.
Proof. reflexivity. Qed.

(** A length of 256 code units has three digits, which come out as the two
    bytes 16 and 0. *)
Example fromHexString_odd : fromHexString (toString16 256) = Return [16; 0].
Proof. reflexivity. Qed.

Example stringToHex_default :
  fromHexString (stringToHex (lit "default"))
  = Return [100; 101; 102; 97; 117; 108; 116].
Proof. reflexivity. Qed.

Example float64_be_one : float64_be 1 = [63; 240; 0; 0; 0; 0; 0; 0].
Proof. reflexivity. Qed.

Example float64_be_minus_two : float64_be (-2) = [192; 0; 0; 0; 0; 0; 0; 0].
Proof. reflexivity. Qed.

Example float64_be_tenth :
  float64_be 0x1.999999999999ap-4 = [63; 185; 153; 153; 153; 153; 153; 154].
Proof. reflexivity. Qed.

Example float64_be_least : float64_be 0x1p-1074 = [0; 0; 0; 0; 0; 0; 0; 1].
Proof. reflexivity. Qed.

Example float64_be_greatest :
  float64_be 0x1.fffffffffffffp+1023 = [127; 239; 255; 255; 255; 255; 255; 255].
Proof. reflexivity. Qed.

Example float64_be_negative_zero :
  float64_be (-0) = [128; 0; 0; 0; 0; 0; 0; 0].
Proof. reflexivity. Qed.

Example float64_be_infinity :
  float64_be infinity = [127; 240; 0; 0; 0; 0; 0; 0].
Proof. reflexivity. Qed.

Example Math_max_empty : Math_max [] = neg_infinity.
Proof. reflexivity. Qed.

Example Math_max_zeros : Math_max [(-0)%float; 0%float] = 0%float.
Proof. reflexivity. Qed.

Example Math_min_nan : Math_min [1%float; nan] = nan.
Proof. reflexivity. Qed.

(** The first bytes of the buffer of a new document, as the comment above
    [toBuffer] in the source gives them. *)
Example toBuffer_signature :
  match snd (toBuffer new_BWCurve) with
  | Return bytes => firstn 24 bytes
  | Throw _ => []
  end
  = [66; 116; 87; 103; 48; 48; 48; 51; 48; 48; 48; 50; 48; 48; 48; 48; 48; 48;
     48; 48; 49; 53; 48; 101].
Proof. vm_compute. reflexivity. Qed.

(** ** Arrays *)

Lemma map_from_ignore {A B} (f : A -> B) (array rest : list A) (i : nat) :
  map_from (fun a _ _ => f a) array i rest = List.map f rest.
Proof.
  revert i. induction rest as [|a rest IH]; intros i; simpl.
  - reflexivity.
  - now rewrite IH.
Qed.

Lemma Array_map_ignore {A B} (f : A -> B) (array : list A) :
  Array_map (fun a _ _ => f a) array = List.map f array.
Proof. apply map_from_ignore. Qed.

Lemma splice1_beyond {A} (l : list A) (start : Z) :
  Z.of_nat (length l) <= start -> splice1 l start = l.
Proof.
  intros H. unfold splice1.
  destruct (Z.ltb_spec start 0) as [Hneg|_]; [lia|].
  rewrite Z.min_r by lia.
  replace (Z.min (Z.max 1 0) (Z.of_nat (length l) - Z.of_nat (length l)))
    with 0 by lia.
  rewrite Z.add_0_r, Nat2Z.id, firstn_all, skipn_all.
  apply app_nil_r.
Qed.

Lemma splice1_negative {A} (l : list A) (start : Z) :
  start < 0 -> l <> [] ->
  let k := Z.to_nat (Z.max (Z.of_nat (length l) + start) 0) in
  splice1 l start = firstn k l ++ skipn (S k) l /\ (k < length l)%nat.
Proof.
  intros Hneg Hne k.
  assert (Hlen : (0 < length l)%nat) by (destruct l; [congruence | simpl; lia]).
  assert (Hk : (k < length l)%nat) by (unfold k; lia).
  split; [|exact Hk].
  unfold splice1.
  destruct (Z.ltb_spec start 0) as [_|Hge]; [|lia].
  fold k.
  replace (Z.to_nat
             (Z.max (Z.of_nat (length l) + start) 0
              + Z.min (Z.max 1 0)
                  (Z.of_nat (length l) - Z.max (Z.of_nat (length l) + start) 0)))
    with (S k) by (unfold k; lia).
  reflexivity.
Qed.

(** ** clamp *)

Lemma clamp_eq (this : BWCurve) :
  clamp this = with_points this (List.map clampPoint (points this)).
Proof. unfold clamp, map. now rewrite Array_map_ignore. Qed.

Lemma clamped_unit_idempotent (v : number) :
  clamped 0 (clamped 0 v) = clamped 0 v.
Proof. apply clamped_idempotent; reflexivity. Qed.

Lemma clamped_slope_idempotent (v : number) :
  clamped (-1) (clamped (-1) v) = clamped (-1) v.
Proof. apply clamped_idempotent; reflexivity. Qed.

Lemma clamped_to_clamped (lo v : number) :
  is_nan lo = false -> is_neg_zero lo = false -> ltb neg_infinity lo = true ->
  ltb lo 1 = true -> ltb lo lo = false -> leb lo lo = true ->
  clamped_to lo 1 v (clamped lo v).
Proof.
  intros H1 H2 H3 H4 H5 H6. unfold clamped_to.
  destruct (is_nan v) eqn:E.
  - rewrite clamped_nan by assumption. reflexivity.
  - apply clamped_in_range; assumption.
Qed.

(** C7, as the code has it: [clamp] is idempotent, it keeps every x, and in
    every point it brings y into [0,1] and the slope into [-1,1] unless the
    coordinate is NaN, which it leaves NaN. *)
Theorem clamp_idempotent_and_bounds (this : BWCurve) :
  clamp (clamp this) = clamp this /\
  Forall2
    (fun p p' =>
       x p' = x p /\
       clamped_to 0 1 (y p) (y p') /\
       clamped_to (-1) 1 (slope p) (slope p'))
    (points this) (points (clamp this)).
Proof.
  split.
  - rewrite !clamp_eq. unfold with_points. simpl. f_equal.
    rewrite List.map_map. apply List.map_ext. intros p.
    unfold clampPoint, pt. simpl.
    now rewrite clamped_unit_idempotent, clamped_slope_idempotent.
  - rewrite clamp_eq. simpl.
    induction (points this) as [|p ps IH]; simpl; constructor; [|exact IH].
    simpl. repeat split; apply clamped_to_clamped; reflexivity.
Qed.

(** C7 as stated fails on a point whose y is NaN: [Math.min(1, NaN)] and
    [Math.max(0, NaN)] are NaN, and NaN is not in [0,1]. *)
Lemma clamp_leaves_nan :
  points (clamp nan_curve) = [pt 0 nan 0] /\
  ~ Forall
      (fun p => in_range 0 1 (y p) = true /\ in_range (-1) 1 (slope p) = true)
      (points (clamp nan_curve)).
Proof.
  split; [reflexivity|].
  intros H. inversion H as [|p ps [Hy _] _ Heq]; subst.
  vm_compute in Hy. discriminate Hy.
Qed.

(** ** spliceCurve *)

Lemma spliceCurve_nonempty (this curve : BWCurve) :
  points this <> [] -> points curve <> [] ->
  points (spliceCurve this curve) =
  points this
  ++ List.map (fun p => with_x p (x p + getMaxX this)%float) (points curve).
Proof.
  intros Ht Hc. unfold spliceCurve.
  destruct (points curve) as [|c cs] eqn:Ec; [congruence|].
  destruct (points this) as [|t ts] eqn:Et; [congruence|].
  simpl. rewrite Et. reflexivity.
Qed.

(** C5, as the code has it: an empty receiver takes the argument's points as
    they are; the unit ramp has greatest x 1, and spliced with itself it gives
    [(0,0,0), (1,1,0), (1,0,0), (2,1,0)]: the appended points are moved by 1. *)
Theorem spliceCurve_adopts_and_offsets :
  (forall this curve : BWCurve,
     points this = [] -> points (spliceCurve this curve) = points curve) /\
  getMaxX unit_ramp = 1%float /\
  points (spliceCurve unit_ramp unit_ramp) =
  [pt 0 0 0; pt 1 1 0; pt 1 0 0; pt 2 1 0].
Proof.
  split; [|split; reflexivity].
  intros this curve Hempty. unfold spliceCurve.
  destruct (points curve) as [|c cs] eqn:Ec; simpl.
  - exact Hempty.
  - rewrite Hempty. reflexivity.
Qed.

Lemma spliceCurve_on_new_document :
  points new_BWCurve = [] /\
  points (spliceCurve new_BWCurve unit_ramp) = points unit_ramp.
Proof.
  split; [reflexivity|].
  apply (proj1 spliceCurve_adopts_and_offsets new_BWCurve unit_ramp).
  reflexivity.
Defined.

(** C5 as stated fails: the third point of the spliced ramps has x = 1, not
    2, and the sequence is not the one the claim gives. *)
Lemma spliceCurve_unit_ramp_not_as_claimed :
  points (spliceCurve unit_ramp unit_ramp) <>
  [pt 0 0 0; pt 1 1 0; pt 2 0 0; pt 3 1 0].
Proof.
  intros H.
  apply (f_equal (fun ps => PrimFloat.eqb (x_at ps 2) 2)) in H.
  vm_compute in H. discriminate H.
Qed.

(** ** removePoint *)

(** C6, as the code has it: at an index from the point count on nothing is
    removed; at a negative index on a document with points, the point at
    position [max (count + index) 0] is removed. *)
Theorem removePoint_out_of_range (this : BWCurve) (index : Z) :
  (Z.of_nat (pointCount this) <= index ->
   points (removePoint this index) = points this) /\
  (index < 0 -> points this <> [] ->
   let k := Z.to_nat (Z.max (Z.of_nat (pointCount this) + index) 0) in
   points (removePoint this index)
   = firstn k (points this) ++ skipn (S k) (points this)
   /\ pointCount (removePoint this index) = (pointCount this - 1)%nat).
Proof.
  unfold pointCount, removePoint. simpl. split.
  - apply splice1_beyond.
  - intros Hneg Hne.
    destruct (splice1_negative (points this) index Hneg Hne) as [Heq Hk].
    cbv zeta in *. split; [exact Heq|].
    rewrite Heq, length_app, length_firstn, length_skipn. lia.
Qed.

Lemma removePoint_on_unit_ramp :
  points (removePoint unit_ramp 2) = points unit_ramp /\
  points (removePoint unit_ramp (-5)) = [pt 1 1 0] /\
  pointCount (removePoint unit_ramp (-5)) = 1%nat.
Proof.
  split.
  - apply (proj1 (removePoint_out_of_range unit_ramp 2)). simpl. lia.
  - apply (proj2 (removePoint_out_of_range unit_ramp (-5))).
    + lia.
    + discriminate.
Defined.

(** C6 as stated fails at a negative index: [removePoint(-1)] removes the
    last point. *)
Lemma removePoint_negative_removes :
  points (removePoint unit_ramp (-1)) = [pt 0 0 0] /\
  points (removePoint unit_ramp (-1)) <> points unit_ramp.
Proof.
  split; [reflexivity|].
  intros H. apply (f_equal (@length _)) in H. vm_compute in H. discriminate H.
Qed.

(** ** double *)

Lemma double_points (this : BWCurve) :
  (1 < pointCount this)%nat ->
  let halved :=
    List.map (fun p => with_x p (x p * (0.5 * getMaxX this))%float) (points this) in
  points (double this) =
  halved
  ++ List.map (fun p => with_x p (x p + Math_max (List.map x halved))%float) halved.
Proof.
  unfold pointCount. intros Hlen. cbv zeta. unfold double.
  destruct (Nat.leb_spec (length (points this)) 1) as [Hle|_]; [lia|].
  rewrite spliceCurve_nonempty.
  - reflexivity.
  - simpl. destruct (points this); simpl in *; [lia | discriminate].
  - simpl. destruct (points this); simpl in *; [lia | discriminate].
Qed.

(** C4 on the ramp [(0,0,0), (2,1,0)]: [double] multiplies every x by
    [0.5 * maxX = 1], not by 0.5, and the result spans [0, 4], twice the
    domain before the call. *)
Theorem double_wide_ramp :
  getMaxX wide_ramp = 2%float /\
  points (double wide_ramp) = [pt 0 0 0; pt 2 1 0; pt 2 0 0; pt 4 1 0] /\
  getMaxX (double wide_ramp) = 4%float /\
  points (mirror wide_ramp) = [pt 0 0 0; pt 1 1 0; pt 1 1 0; pt 2 0 0].
Proof. repeat split; reflexivity. Qed.

(** ** clip *)

Section ClipExamples.

Local Open Scope float_scope.

Variable Math_tanh : number -> number.
Variable Math_sin : number -> number.
Variable Math_pow : number -> number -> number.

Lemma clip_tanh_points (this : BWCurve) :
  points (clip Math_tanh Math_sin Math_pow this (lit "tanh")) =
  List.map (fun p => with_y p (Math_tanh (5 * y p))) (points this).
Proof. unfold clip. simpl. apply Array_map_ignore. Qed.

Lemma clip_sin_points (this : BWCurve) :
  points (clip Math_tanh Math_sin Math_pow this (lit "sin")) =
  List.map
    (fun p =>
       with_y p
         (if ltb (2 / 3) (Math_abs (y p)) then Math_sign (y p)
          else Math_sin ((3 * Math_PI * y p) / 4)))
    (points this).
Proof. unfold clip. simpl. apply Array_map_ignore. Qed.

Lemma clip_cubic_points (this : BWCurve) :
  points (clip Math_tanh Math_sin Math_pow this (lit "cubic")) =
  List.map
    (fun p =>
       with_y p
         (if ltb (2 / 3) (Math_abs (y p)) then Math_sign (y p)
          else (9 * y p) / 4 - (27 * Math_pow (y p) 3) / 16))
    (points this).
Proof. unfold clip. simpl. apply Array_map_ignore. Qed.

Lemma clip_unknown (this : BWCurve) :
  clip Math_tanh Math_sin Math_pow this (lit "linear") = this.
Proof. reflexivity. Qed.

End ClipExamples.

(** C8: on an engine whose [Math.tanh] maps 0 to 0 (as the language standard
    requires) and whose [**] gives 0.5 cubed exactly, [clip('tanh')] maps
    y = 0 to 0, [clip('sin')] maps y = 1 to 1 and [clip('cubic')] maps
    y = 0.5 to 0.9140625; x and slope are kept. *)
Theorem clip_examples
    (Math_tanh Math_sin : number -> number) (Math_pow : number -> number -> number)
    (tanh_zero : Math_tanh 0%float = 0%float)
    (pow_half_cubed : Math_pow 0.5%float 3%float = 0.125%float)
    (this : BWCurve) (i : nat) (p : BWCurvePoint)
    (Hp : nth_error (points this) i = Some p) :
  (y p = 0%float ->
   nth_error (points (clip Math_tanh Math_sin Math_pow this (lit "tanh"))) i
   = Some (pt (x p) 0 (slope p))) /\
  (y p = 1%float ->
   nth_error (points (clip Math_tanh Math_sin Math_pow this (lit "sin"))) i
   = Some (pt (x p) 1 (slope p))) /\
  (y p = 0.5%float ->
   nth_error (points (clip Math_tanh Math_sin Math_pow this (lit "cubic"))) i
   = Some (pt (x p) 0.9140625 (slope p))).
Proof.
  repeat split; intros Hy.
  - rewrite clip_tanh_points, nth_error_map, Hp. simpl.
    unfold with_y, pt. rewrite Hy.
    change (5 * 0)%float with 0%float. now rewrite tanh_zero.
  - rewrite clip_sin_points, nth_error_map, Hp. simpl.
    unfold with_y, pt. rewrite Hy. reflexivity.
  - rewrite clip_cubic_points, nth_error_map, Hp. simpl.
    unfold with_y, pt. rewrite Hy.
    change (ltb (2 / 3) (Math_abs 0.5))%float with false. cbv iota.
    rewrite pow_half_cubed. reflexivity.
Qed.

Lemma clip_examples_on_samples :
  (approx_tanh 0 = 0 /\ approx_pow 0.5 3 = 0.125)%float /\
  nth_error
    (points (clip approx_tanh approx_sin approx_pow clip_samples (lit "tanh"))) 0
  = Some (pt 0 0 0) /\
  nth_error
    (points (clip approx_tanh approx_sin approx_pow clip_samples (lit "sin"))) 1
  = Some (pt 1 1 0) /\
  nth_error
    (points (clip approx_tanh approx_sin approx_pow clip_samples (lit "cubic"))) 2
  = Some (pt 2 0.9140625 0).
Proof.
  split; [split; reflexivity|].
  split; [|split].
  - apply (clip_examples approx_tanh approx_sin approx_pow eq_refl eq_refl
             clip_samples 0 (pt 0 0 0) eq_refl).
    reflexivity.
  - apply (clip_examples approx_tanh approx_sin approx_pow eq_refl eq_refl
             clip_samples 1 (pt 1 1 0) eq_refl).
    reflexivity.
  - apply (clip_examples approx_tanh approx_sin approx_pow eq_refl eq_refl
             clip_samples 2 (pt 2 0.5 0) eq_refl).
    reflexivity.
Defined.

(** ** The codec: the records of the points *)

(** The record [toBuffer] builds for a point, zeros first and the three
    doubles written over them at offsets 8, 21 and 34, is the layout
    [pointRecord]. *)
Lemma pointStructure_layout (p : BWCurvePoint) :
  pointStructure p = Return (pointRecord p).
Proof.
  destruct p as [px py ps].
  cbv - [float64_bits byte_of]. reflexivity.
Qed.

Lemma mapC_pointStructure (ps : list BWCurvePoint) :
  mapC pointStructure ps = Return (List.map pointRecord ps).
Proof.
  induction ps as [|p ps IH]; cbn [mapC List.map].
  - reflexivity.
  - rewrite pointStructure_layout, IH. reflexivity.
Qed.

Lemma total_length (records : list Uint8Array) (n : nat) :
  fold_left (fun acc p => (acc + length p)%nat) records n
  = (n + length (concat records))%nat.
Proof.
  revert n. induction records as [|r rs IH]; intros n; simpl.
  - lia.
  - rewrite IH, length_app. lia.
Qed.

Lemma firstn_exact {A} (l1 l2 : list A) : firstn (length l1) (l1 ++ l2) = l1.
Proof. induction l1 as [|a l1 IH]; simpl; [now destruct l2 | now rewrite IH]. Qed.

Lemma skipn_exact {A} (l1 l2 : list A) : skipn (length l1) (l1 ++ l2) = l2.
Proof. induction l1 as [|a l1 IH]; simpl; [reflexivity | exact IH]. Qed.

Lemma Uint8Array_set_fill (done source : Uint8Array) (n : nat) :
  Uint8Array_set (done ++ new_Uint8Array (length source + n)) source (length done)
  = Return ((done ++ source) ++ new_Uint8Array n).
Proof.
  unfold Uint8Array_set, new_Uint8Array.
  rewrite length_app, repeat_length.
  destruct (Nat.leb_spec (length done + length source)
              (length done + (length source + n))) as [_|H]; [|lia].
  rewrite firstn_exact, repeat_app.
  rewrite (app_assoc done (repeat 0 (length source))).
  replace (length done + length source)%nat
    with (length (done ++ repeat 0 (length source)))
    by (now rewrite length_app, repeat_length).
  now rewrite skipn_exact, <- app_assoc.
Qed.

Lemma merge_loop (records : list Uint8Array) (done : Uint8Array) :
  fold_left mergeStep records
    (@Return (Uint8Array * nat)
       (done ++ new_Uint8Array (length (concat records)), length done))
  = Return (done ++ concat records, length (done ++ concat records)).
Proof.
  revert done. induction records as [|r rs IH]; intros done.
  - simpl. now rewrite !app_nil_r.
  - cbn [fold_left concat]. rewrite length_app.
    unfold mergeStep at 2. cbn [bindC]. rewrite Uint8Array_set_fill. cbn [bindC].
    rewrite <- length_app, IH. now rewrite <- app_assoc.
Qed.

Lemma mergePoints_concat (records : list Uint8Array) :
  mergePoints records = Return (concat records).
Proof.
  unfold mergePoints. cbv zeta. rewrite total_length. cbn [Nat.add].
  pose proof (merge_loop records []) as H. cbn [app length] in H.
  match goal with
  | |- bindC ?c _ = _ =>
      replace c with (Return (concat records, length (concat records)))
        by (symmetry; exact H)
  end.
  reflexivity.
Qed.

Lemma pointRecord_length (p : BWCurvePoint) : length (pointRecord p) = 47%nat.
Proof. reflexivity. Qed.

(** ** The bytes of a double determine it *)

Lemma digits2_pos_bounds (m : positive) :
  2 ^ (Z.pos (digits2_pos m) - 1) <= Z.pos m < 2 ^ Z.pos (digits2_pos m).
Proof.
  induction m as [m IH|m IH|]; simpl digits2_pos.
  - rewrite Pos2Z.inj_succ.
    replace (Z.succ (Z.pos (digits2_pos m)) - 1)
      with (Z.succ (Z.pos (digits2_pos m) - 1)) by lia.
    rewrite !Z.pow_succ_r by lia. lia.
  - rewrite Pos2Z.inj_succ.
    replace (Z.succ (Z.pos (digits2_pos m)) - 1)
      with (Z.succ (Z.pos (digits2_pos m) - 1)) by lia.
    rewrite !Z.pow_succ_r by lia. lia.
  - simpl. lia.
Qed.

(** What validity says of the mantissa and the exponent of a double. *)
Lemma valid_finite (s : bool) (m : positive) (e : Z) :
  valid_binary (S754_finite s m e) = true ->
  Z.pos m < 2 ^ 53 /\ -1074 <= e <= 971 /\ (Z.pos m < 2 ^ 52 -> e = -1074).
Proof.
  unfold valid_binary, bounded, canonical_mantissa, fexp, emin.
  change prec with 53. change emax with 1024.
  intros H. apply andb_prop in H. destruct H as [Hc He].
  apply Z.eqb_eq in Hc. apply Z.leb_le in He.
  pose proof (digits2_pos_bounds m) as [Hlo Hhi].
  set (d := Z.pos (digits2_pos m)) in *.
  assert (Hd : d <= 53) by lia.
  repeat split; try lia.
  - eapply Z.lt_le_trans; [exact Hhi|]. apply Z.pow_le_mono_r; lia.
  - intros Hsub.
    assert (Hd' : d - 1 < 52).
    { apply (Z.pow_lt_mono_r_iff 2); try lia. }
    lia.
Qed.

Lemma float64_bits_range (v : number) : 0 <= float64_bits v < 2 ^ 64.
Proof.
  unfold float64_bits. pose proof (Prim2SF_valid v) as Hv.
  destruct (Prim2SF v) as [s|s| |s m e].
  - destruct s; simpl; lia.
  - destruct s; simpl; lia.
  - simpl; lia.
  - apply valid_finite in Hv. destruct Hv as (Hm & He & Hsub).
    change (2 ^ 52) with 4503599627370496 in *.
    change (2 ^ 53) with 9007199254740992 in *.
    change (2 ^ 63) with 9223372036854775808.
    change (2 ^ 64) with 18446744073709551616.
    destruct (Z.leb_spec 4503599627370496 (Z.pos m)); destruct s; lia.
Qed.

Lemma float64_bits_injective (v w : number) :
  float64_bits v = float64_bits w -> v = w.
Proof.
  intros H. apply Prim2SF_inj. revert H. unfold float64_bits.
  pose proof (Prim2SF_valid v) as Hv. pose proof (Prim2SF_valid w) as Hw.
  destruct (Prim2SF v) as [s|s| |s m e]; destruct (Prim2SF w) as [s'|s'| |s' m' e'];
    try (apply valid_finite in Hv; destruct Hv as (Hm & He & Hsub));
    try (apply valid_finite in Hw; destruct Hw as (Hm' & He' & Hsub'));
    change (2 ^ 51) with 2251799813685248 in *;
    change (2 ^ 52) with 4503599627370496 in *;
    change (2 ^ 53) with 9007199254740992 in *;
    change (2 ^ 63) with 9223372036854775808 in *;
    try destruct (Z.leb_spec 4503599627370496 (Z.pos m)) as [Hn|Hn];
    try destruct (Z.leb_spec 4503599627370496 (Z.pos m')) as [Hn'|Hn'];
    try destruct s; try destruct s'; intros Heq;
    try reflexivity; try (exfalso; lia);
    assert (e = e') by lia; assert (Z.pos m = Z.pos m') by lia;
    subst; f_equal; congruence.
Qed.

Lemma byte_of_testbit (b i j : Z) :
  0 <= i -> 0 <= j < 8 -> Z.testbit (byte_of b i) j = Z.testbit b (8 * i + j).
Proof.
  intros Hi Hj. unfold byte_of.
  rewrite Z.land_spec, Z.shiftr_spec by lia.
  change 255 with (Z.ones 8). rewrite Z.ones_spec_low by lia.
  rewrite andb_true_r. f_equal. lia.
Qed.

Lemma float64_be_injective (v w : number) :
  float64_be v = float64_be w -> v = w.
Proof.
  intros H. apply float64_bits_injective.
  pose proof (float64_bits_range v) as Rv.
  pose proof (float64_bits_range w) as Rw.
  unfold float64_be in H. cbv zeta in H.
  set (b := float64_bits v) in *. set (c := float64_bits w) in *.
  injection H as H7 H6 H5 H4 H3 H2 H1 H0.
  apply Z.bits_inj'. intros n Hn.
  destruct (Z.lt_ge_cases n 64) as [Hlt|Hge].
  - pose proof (Z.div_mod n 8 ltac:(lia)) as Hdm.
    pose proof (Z.mod_pos_bound n 8 ltac:(lia)) as Hmod.
    assert (Hq : 0 <= n / 8 < 8)
      by (split; [apply Z.div_pos; lia | apply Z.div_lt_upper_bound; lia]).
    rewrite Hdm.
    rewrite <- !byte_of_testbit by lia.
    assert (Hcase : n / 8 = 0 \/ n / 8 = 1 \/ n / 8 = 2 \/ n / 8 = 3 \/
                    n / 8 = 4 \/ n / 8 = 5 \/ n / 8 = 6 \/ n / 8 = 7) by lia.
    destruct Hcase as [E|[E|[E|[E|[E|[E|[E|E]]]]]]]; rewrite E; congruence.
  - rewrite <- (Z.mod_small b (2 ^ 64)), <- (Z.mod_small c (2 ^ 64)) by lia.
    rewrite !Z.mod_pow2_bits_high by lia. reflexivity.
Qed.

(** A record determines its point: the encoding of the coordinates loses
    nothing. *)
Lemma pointRecord_injective (p q : BWCurvePoint) :
  pointRecord p = pointRecord q -> p = q.
Proof.
  destruct p as [px py ps], q as [qx qy qs]. unfold pointRecord. simpl.
  intros H. injection H as Hy7 Hy6 Hy5 Hy4 Hy3 Hy2 Hy1 Hy0
                            Hx7 Hx6 Hx5 Hx4 Hx3 Hx2 Hx1 Hx0
                            Hs7 Hs6 Hs5 Hs4 Hs3 Hs2 Hs1 Hs0.
  assert (Ey : py = qy) by (apply float64_be_injective; unfold float64_be; congruence).
  assert (Ex : px = qx) by (apply float64_be_injective; unfold float64_be; congruence).
  assert (Es : ps = qs) by (apply float64_be_injective; unfold float64_be; congruence).
  now subst.
Qed.

(** ** The codec: methods that only read *)

Create HintDb readonly.

Lemma readonly_retM {A} (a : A) : readonly (retM a).
Proof. intros this. reflexivity. Qed.

Lemma readonly_liftC {A} (c : Completion A) : readonly (liftC c).
Proof. intros this. reflexivity. Qed.

Lemma readonly_read {A} (f : BWCurve -> A) : readonly (read f).
Proof. intros this. reflexivity. Qed.

Lemma readonly_bindM {A B} (m : Method A) (k : A -> Method B) :
  readonly m -> (forall a, readonly (k a)) -> readonly (bindM m k).
Proof.
  intros Hm Hk this. unfold bindM.
  specialize (Hm this). destruct (m this) as [this' [a|e]]; simpl in *; subst.
  - apply Hk.
  - reflexivity.
Qed.

Lemma readonly_hexOf (e : BWCurve -> jsstring) : readonly (hexOf e).
Proof.
  apply readonly_bindM; [apply readonly_read | intros; apply readonly_liftC].
Qed.

Lemma readonly_hex (s : string) : readonly (hex s).
Proof. apply readonly_hexOf. Qed.

#[local] Hint Resolve readonly_retM readonly_liftC readonly_read
  readonly_hexOf readonly_hex : readonly.

Lemma readonly_arrayLiteral (elements : list (Method Uint8Array)) :
  Forall readonly elements -> readonly (arrayLiteral elements).
Proof.
  induction 1 as [|e rest He _ IH]; simpl.
  - apply readonly_retM.
  - apply readonly_bindM; [exact He|]. intros a.
    apply readonly_bindM; [exact IH|]. intros b. apply readonly_retM.
Qed.

Lemma readonly_headerAndMetadata (spacer : Uint8Array) :
  Forall readonly (headerAndMetadata spacer).
Proof. unfold headerAndMetadata. repeat constructor; auto with readonly. Qed.

Lemma readonly_pointsBlock (mergedPoints : Uint8Array) :
  Forall readonly (pointsBlock mergedPoints).
Proof. unfold pointsBlock. repeat constructor; auto with readonly. Qed.

Lemma readonly_trailerBlock (spacer stop : Uint8Array) :
  Forall readonly (trailerBlock spacer stop).
Proof. unfold trailerBlock. repeat constructor; auto with readonly. Qed.

Lemma readonly_toBuffer : readonly toBuffer.
Proof.
  unfold toBuffer.
  do 5 (apply readonly_bindM; [auto with readonly | intros ?]).
  apply readonly_arrayLiteral. rewrite !Forall_app.
  auto using readonly_headerAndMetadata, readonly_pointsBlock,
    readonly_trailerBlock.
Qed.

(** C10: [toBuffer] leaves the document as it found it, points and metadata,
    whether it returns a buffer or throws. *)
Theorem toBuffer_preserves_document (this : BWCurve) :
  let after := fst (toBuffer this) in
  after = this /\
  points after = points this /\
  name (metadata after) = name (metadata this) /\
  creator (metadata after) = creator (metadata this) /\
  description (metadata after) = description (metadata this) /\
  category (metadata after) = category (metadata this) /\
  tags (metadata after) = tags (metadata this).
Proof.
  assert (E : fst (toBuffer this) = this) by apply readonly_toBuffer.
  cbv zeta. rewrite E. repeat split.
Qed.

(** C3: a second call of [toBuffer], on the document as the first call left
    it, completes as the first did: with the same bytes when the first
    returned, with the same exception when it threw. *)
Theorem toBuffer_deterministic (this : BWCurve) :
  snd (toBuffer (fst (toBuffer this))) = snd (toBuffer this) /\
  (forall bytes, snd (toBuffer this) = Return bytes ->
                 snd (toBuffer (fst (toBuffer this))) = Return bytes).
Proof.
  assert (E : fst (toBuffer this) = this) by apply readonly_toBuffer.
  rewrite E. split; [reflexivity | intros bytes H; exact H].
Qed.

(** ** The codec: the array literal of toBuffer *)

Lemma toBuffer_eq (this : BWCurve) :
  toBuffer this = arrayLiteral (bufferElements this) this.
Proof.
  unfold toBuffer, bufferElements.
  change (fromHexString (lit "00 00 00")) with (Return spacerBytes).
  change (fromHexString (lit "00")) with (Return stopBytes).
  unfold bindM at 1. cbn [liftC].
  unfold bindM at 1. cbn [liftC].
  unfold bindM at 1. cbn [read].
  unfold bindM at 1. cbn [liftC]. rewrite mapC_pointStructure.
  unfold bindM at 1. cbn [liftC]. rewrite mergePoints_concat.
  now rewrite <- flat_map_concat_map.
Qed.

Lemma fromHexString_throws (s : jsstring) (e : Exception) :
  fromHexString s = Throw e -> e = TypeError.
Proof.
  unfold fromHexString. destruct (match_pairs _); congruence.
Qed.

Lemma hexOf_throws (f : BWCurve -> jsstring) : throws_only_TypeError (hexOf f).
Proof.
  intros this e. unfold hexOf, bindM, read, liftC. simpl.
  apply fromHexString_throws.
Qed.

Lemma retM_throws {A} (a : A) : throws_only_TypeError (retM a).
Proof. intros this e. simpl. discriminate. Qed.

Lemma throws_bufferElements (this : BWCurve) :
  Forall throws_only_TypeError (bufferElements this).
Proof.
  unfold bufferElements, headerAndMetadata, pointsBlock, trailerBlock, hex.
  rewrite !Forall_app.
  repeat split; repeat constructor; auto using hexOf_throws, retM_throws.
Qed.

Lemma readonly_bufferElements (this : BWCurve) :
  Forall readonly (bufferElements this).
Proof.
  unfold bufferElements. rewrite !Forall_app.
  auto using readonly_headerAndMetadata, readonly_pointsBlock,
    readonly_trailerBlock.
Qed.

Lemma arrayLiteral_throws (elements : list (Method Uint8Array)) (this : BWCurve) :
  Forall readonly elements ->
  Forall throws_only_TypeError elements ->
  Exists (fun m => exists e, snd (m this) = Throw e) elements ->
  snd (arrayLiteral elements this) = Throw TypeError.
Proof.
  intros Hro Hth Hex. induction elements as [|m rest IH].
  - inversion Hex.
  - inversion Hro as [|? ? Hm Hrest]; subst.
    inversion Hth as [|? ? Tm Trest]; subst.
    cbn [arrayLiteral]. unfold bindM at 1.
    specialize (Hm this). specialize (Tm this).
    destruct (m this) as [this' [a|e]] eqn:Em; simpl in Hm, Tm; subst this'.
    + assert (Hr : snd (arrayLiteral rest this) = Throw TypeError).
      { apply IH; try assumption.
        inversion Hex as [? ? [e He]|]; subst; [|assumption].
        rewrite Em in He. discriminate He. }
      unfold bindM.
      destruct (arrayLiteral rest this) as [this' [b|e]]; simpl in Hr |- *.
      * discriminate Hr.
      * exact Hr.
    + simpl. now rewrite (Tm e eq_refl).
Qed.

Lemma tagsHex_in_header (spacer : Uint8Array) :
  In (hexOf tagsHex) (headerAndMetadata spacer).
Proof.
  unfold headerAndMetadata.
  repeat (first [left; reflexivity | right]).
Qed.

(** Without tags the array literal ends at the bytes of the tags: the
    joined hexadecimal string is empty, [match] gives [null] and [.map] on
    it throws. *)
Lemma toBuffer_without_tags_throws (this : BWCurve) :
  get_tags this = [] -> snd (toBuffer this) = Throw TypeError.
Proof.
  intros Htags. rewrite toBuffer_eq.
  apply arrayLiteral_throws.
  - apply readonly_bufferElements.
  - apply throws_bufferElements.
  - unfold bufferElements. apply Exists_app. left.
    apply Exists_exists. exists (hexOf tagsHex). split.
    + apply tagsHex_in_header.
    + exists TypeError. unfold hexOf, bindM, read, liftC, tagsHex. simpl.
      now rewrite Htags.
Qed.

(** C9 on a document without tags: the length byte of the tags would be the
    single byte 0, but the next element of the array literal throws and
    [toBuffer] returns no buffer at all. *)
Theorem toBuffer_untagged_throws :
  get_tags untagged = [] /\
  snd (hexOf tagsLength untagged) = Return [0] /\
  snd (hexOf tagsHex untagged) = Throw TypeError /\
  snd (toBuffer untagged) = Throw TypeError.
Proof. repeat split; vm_compute; reflexivity. Qed.

(** ** When toBuffer returns *)

Lemma pairs_nonempty (s : jsstring) : match_pairs s = None -> s = [].
Proof. destruct s; [reflexivity | discriminate]. Qed.

Lemma filter_all {A} (f : A -> bool) (l : list A) :
  Forall (fun a => f a = true) l -> filter f l = l.
Proof.
  induction 1 as [|a l Ha _ IH]; simpl; [reflexivity|].
  now rewrite Ha, IH.
Qed.

Lemma fromHexString_returns (s : jsstring) :
  solid s -> exists bytes, fromHexString s = Return bytes.
Proof.
  intros [Hne Hws]. unfold fromHexString.
  rewrite filter_all.
  - destruct (match_pairs s) as [ps|] eqn:E; [eauto|].
    apply pairs_nonempty in E. contradiction.
  - eapply Forall_impl; [|exact Hws]. intros c Hc. simpl in Hc. now rewrite Hc.
Qed.

Lemma solid_app (a b : jsstring) :
  solid a -> Forall (fun c => is_whitespace c = false) b -> solid (a ++ b).
Proof.
  intros [Hne Ha] Hb. split.
  - destruct a; [congruence | discriminate].
  - apply Forall_app. now split.
Qed.

Lemma solid_digits (d : Hexadecimal.uint) :
  Forall (fun c => is_whitespace c = false) (lit (NilEmpty.string_of_uint d)).
Proof.
  induction d; simpl; constructor; try reflexivity; assumption.
Qed.

Lemma solid_toString16 (n : N) : solid (toString16 n).
Proof.
  unfold toString16, NilZero.string_of_uint.
  destruct (N.to_hex_uint n) eqn:E;
    try (split; [discriminate | apply (solid_digits (_ _))]).
  split; [discriminate | repeat constructor].
Qed.

Lemma free_stringToHex (s : jsstring) :
  Forall (fun c => is_whitespace c = false) (stringToHex s).
Proof.
  unfold stringToHex. induction s as [|c s IH]; [constructor|].
  cbn [List.map join].
  destruct (List.map (fun c0 => toString16 c0) s) eqn:E.
  - apply solid_toString16.
  - rewrite app_nil_l. apply Forall_app. split; [apply solid_toString16 | exact IH].
Qed.

Lemma solid_stringToHex (s : jsstring) : s <> [] -> solid (stringToHex s).
Proof.
  intros Hne. destruct s as [|c s]; [congruence|].
  pose proof (free_stringToHex s) as Hs.
  unfold stringToHex in *. cbn [List.map join].
  destruct (List.map (fun c0 => toString16 c0) s) eqn:E.
  - apply solid_toString16.
  - rewrite app_nil_l. apply solid_app; [apply solid_toString16 | exact Hs].
Qed.

Lemma solid_category (c : BWCurveCategories) :
  solid (stringToHex (category_text c)).
Proof. apply solid_stringToHex. destruct c; discriminate. Qed.

Lemma solid_tagsLength (this : BWCurve) : solid (tagsLength this).
Proof.
  unfold tagsLength. destruct (length (get_tags this) =? 0)%nat.
  - split; [discriminate | repeat constructor].
  - apply solid_toString16.
Qed.

Lemma free_join_hex (ts : list jsstring) :
  Forall (fun c => is_whitespace c = false)
    (join (lit "20") (List.map (fun t => stringToHex t) ts)).
Proof.
  induction ts as [|t ts IH]; [constructor|].
  cbn [List.map join].
  destruct (List.map (fun t0 => stringToHex t0) ts) eqn:E.
  - apply free_stringToHex.
  - apply Forall_app. split; [apply free_stringToHex|].
    apply Forall_app. split; [repeat constructor | exact IH].
Qed.

Lemma solid_tagsHex (this : BWCurve) :
  get_tags this <> [] -> get_tags this <> [[]] -> solid (tagsHex this).
Proof.
  unfold tagsHex. intros Hne Hone. split; [|apply free_join_hex].
  destruct (get_tags this) as [|t [|t' ts]]; [congruence| |].
  - cbn [List.map join].
    apply solid_stringToHex. intros ->. now apply Hone.
  - cbn [List.map join]. intros H.
    apply app_eq_nil in H. destruct H as [_ H].
    apply app_eq_nil in H. destruct H as [H _]. discriminate H.
Qed.

Lemma arrayLiteral_app (l1 l2 : list (Method Uint8Array)) (this : BWCurve)
    (a b : Uint8Array) :
  Forall readonly l1 ->
  snd (arrayLiteral l1 this) = Return a ->
  snd (arrayLiteral l2 this) = Return b ->
  snd (arrayLiteral (l1 ++ l2) this) = Return (a ++ b).
Proof.
  intros Hro. revert a. induction Hro as [|m rest Hm Hrest IH]; intros a Ha Hb.
  - simpl in Ha. injection Ha as <-. exact Hb.
  - cbn [app arrayLiteral] in *. unfold bindM at 1 in Ha. unfold bindM at 1.
    specialize (Hm this).
    destruct (m this) as [this' [a0|e]]; simpl in Hm; subst this';
      [|discriminate Ha].
    unfold bindM in Ha.
    pose proof (readonly_arrayLiteral rest Hrest this) as Hs.
    destruct (arrayLiteral rest this) as [this' [a1|e]]; simpl in Hs; subst this';
      [|discriminate Ha].
    simpl in Ha. injection Ha as <-.
    specialize (IH a1 eq_refl Hb).
    unfold bindM.
    destruct (arrayLiteral (rest ++ l2) this) as [this' [c|e]]; simpl in IH;
      [|discriminate IH].
    injection IH as ->. simpl. now rewrite app_assoc.
Qed.

Lemma arrayLiteral_returns (elements : list (Method Uint8Array)) (this : BWCurve) :
  Forall readonly elements ->
  Forall (returns this) elements ->
  returns this (arrayLiteral elements).
Proof.
  intros Hro Hret. induction elements as [|m rest IH].
  - exists []. reflexivity.
  - inversion Hro as [|? ? Hm Hrest]; subst.
    inversion Hret as [|? ? [a Ha] Rrest]; subst.
    destruct (IH Hrest Rrest) as [b Hb].
    exists (a ++ b).
    change (m :: rest) with ([m] ++ rest).
    apply arrayLiteral_app; [repeat constructor; exact Hm | | exact Hb].
    cbn [arrayLiteral]. unfold bindM, retM.
    specialize (Hm this). destruct (m this) as [this' [a0|e]]; simpl in *.
    + injection Ha as ->. now rewrite app_nil_r.
    + discriminate Ha.
Qed.

Lemma hexOf_returns (f : BWCurve -> jsstring) (this : BWCurve) :
  solid (f this) -> returns this (hexOf f).
Proof.
  intros Hs. destruct (fromHexString_returns _ Hs) as [b Hb].
  exists b. unfold hexOf, bindM, read, liftC. simpl. exact Hb.
Qed.

Lemma retM_returns (a : Uint8Array) (this : BWCurve) : returns this (retM a).
Proof. exists a. reflexivity. Qed.

Lemma hex_returns (s : string) (this : BWCurve) :
  (match fromHexString (lit s) with Return _ => true | Throw _ => false end)
  = true ->
  returns this (hex s).
Proof.
  intros H. unfold returns, hex, hexOf, bindM, read, liftC. simpl.
  destruct (fromHexString (lit s)) as [b|e]; [eauto | discriminate H].
Qed.

Ltac element_returns :=
  lazymatch goal with
  | |- returns _ (retM _) => apply retM_returns
  | |- returns _ (hex _) => apply hex_returns; vm_compute; reflexivity
  | |- returns _ (hexOf _) =>
      apply hexOf_returns; cbv beta;
      lazymatch goal with
      | |- solid (toString16 _) => apply solid_toString16
      | |- solid (stringToHex (category_text _)) => apply solid_category
      | |- solid (stringToHex _) => apply solid_stringToHex; assumption
      | |- solid (tagsLength _) => apply solid_tagsLength
      | |- solid (tagsHex _) => apply solid_tagsHex; assumption
      end
  end.

Lemma headerAndMetadata_returns (this : BWCurve) :
  encodable this -> returns this (arrayLiteral (headerAndMetadata spacerBytes)).
Proof.
  intros (Hname & Hcreator & Hdescription & Htags & Htags').
  apply arrayLiteral_returns; [apply readonly_headerAndMetadata|].
  unfold headerAndMetadata. repeat (apply Forall_cons; [element_returns|]).
  apply Forall_nil.
Qed.

Lemma trailerBlock_returns (this : BWCurve) :
  encodable this ->
  returns this (arrayLiteral (trailerBlock spacerBytes stopBytes)).
Proof.
  intros (Hname & Hcreator & Hdescription & Htags & Htags').
  apply arrayLiteral_returns; [apply readonly_trailerBlock|].
  unfold trailerBlock. repeat (apply Forall_cons; [element_returns|]).
  apply Forall_nil.
Qed.

Lemma pointsBlock_bytes (mergedPoints : Uint8Array) (this : BWCurve) :
  snd (arrayLiteral (pointsBlock mergedPoints) this)
  = Return (declarationBytes ++ mergedPoints ++ terminatorBytes).
Proof.
  unfold pointsBlock. cbn [arrayLiteral].
  change (hex pointsDeclaration) with (retM (A:=Uint8Array) declarationBytes) at 1.
  unfold bindM, retM. simpl. reflexivity.
Qed.

(** C2, as the code has it: on every encodable document whose points have no
    NaN coordinate [toBuffer] returns, and between the bytes of the header
    and metadata and those of the closing fields it puts the declaration, one
    record per point in point order with nothing between them, and the
    terminator; a record is a tag of eight bytes, y, a tag of five bytes, x,
    a tag of five bytes, the slope and five zero bytes, the doubles in eight
    bytes big-endian. The bytes of a NaN are the engine's and are left
    out. *)
Theorem toBuffer_points_block (this : BWCurve) :
  encodable this ->
  Forall without_nan (points this) ->
  exists pre post : Uint8Array,
    snd (arrayLiteral (headerAndMetadata spacerBytes) this) = Return pre /\
    snd (arrayLiteral (trailerBlock spacerBytes stopBytes) this) = Return post /\
    snd (toBuffer this)
    = Return (pre ++ declarationBytes ++ flat_map pointRecord (points this)
                  ++ terminatorBytes ++ post).
Proof.
  intros Henc Hnumbers.
  destruct (headerAndMetadata_returns this Henc) as [pre Hpre].
  destruct (trailerBlock_returns this Henc) as [post Hpost].
  exists pre, post. repeat split; try assumption.
  rewrite toBuffer_eq. unfold bufferElements.
  rewrite (arrayLiteral_app _ _ this pre
             ((declarationBytes ++ flat_map pointRecord (points this)
                 ++ terminatorBytes) ++ post)
             (readonly_headerAndMetadata _) Hpre).
  - now rewrite <- !app_assoc.
  - apply arrayLiteral_app.
    + apply readonly_pointsBlock.
    + apply pointsBlock_bytes.
    + exact Hpost.
Qed.

Lemma In_Exists_throw (elements : list (Method Uint8Array)) (this : BWCurve)
    (m : Method Uint8Array) :
  In m elements -> snd (m this) = Throw TypeError ->
  Exists (fun m => exists e, snd (m this) = Throw e) elements.
Proof. intros Hin Hm. apply Exists_exists. exists m. eauto. Qed.

Lemma hexOf_empty_throws (f : BWCurve -> jsstring) (this : BWCurve) :
  f this = [] -> snd (hexOf f this) = Throw TypeError.
Proof.
  intros H. unfold hexOf, bindM, read, liftC. simpl. now rewrite H.
Qed.

Ltac find_element := repeat (first [left; reflexivity | right]).

(** [toBuffer] returns on the encodable documents and on no other: an empty
    name, creator or description, or tags from which no hexadecimal digit
    comes, end the array literal with a TypeError. *)
Lemma toBuffer_not_encodable (this : BWCurve) :
  ~ encodable this -> snd (toBuffer this) = Throw TypeError.
Proof.
  intros Hnot. rewrite toBuffer_eq.
  apply arrayLiteral_throws;
    [apply readonly_bufferElements | apply throws_bufferElements |].
  unfold bufferElements.
  destruct (name (metadata this)) as [|c s] eqn:En.
  { apply Exists_app. right. apply Exists_app. right.
    apply (In_Exists_throw _ _
             (hexOf (fun this => stringToHex (name (metadata this))))).
    - unfold trailerBlock. find_element.
    - apply hexOf_empty_throws. now rewrite En. }
  destruct (creator (metadata this)) as [|c1 s1] eqn:Ec.
  { apply Exists_app. left.
    apply (In_Exists_throw _ _
             (hexOf (fun this => stringToHex (creator (metadata this))))).
    - unfold headerAndMetadata. find_element.
    - apply hexOf_empty_throws. now rewrite Ec. }
  destruct (description (metadata this)) as [|c2 s2] eqn:Ed.
  { apply Exists_app. left.
    apply (In_Exists_throw _ _
             (hexOf (fun this => stringToHex (description (metadata this))))).
    - unfold headerAndMetadata. find_element.
    - apply hexOf_empty_throws. now rewrite Ed. }
  apply Exists_app. left.
  apply (In_Exists_throw _ _ (hexOf tagsHex)); [apply tagsHex_in_header|].
  apply hexOf_empty_throws. unfold tagsHex.
  destruct (get_tags this) as [|t [|t' ts]] eqn:Et; [reflexivity| |].
  - destruct t as [|c3 t]; [reflexivity|].
    exfalso. apply Hnot. unfold encodable. rewrite En, Ec, Ed, Et.
    repeat split; discriminate.
  - exfalso. apply Hnot. unfold encodable. rewrite En, Ec, Ed, Et.
    repeat split; discriminate.
Qed.

Lemma toBuffer_points_block_unit_ramp :
  encodable unit_ramp /\
  Forall without_nan (points unit_ramp) /\
  exists pre post : Uint8Array,
    snd (arrayLiteral (headerAndMetadata spacerBytes) unit_ramp) = Return pre /\
    snd (arrayLiteral (trailerBlock spacerBytes stopBytes) unit_ramp)
    = Return post /\
    snd (toBuffer unit_ramp)
    = Return (pre ++ declarationBytes
                  ++ flat_map pointRecord (points unit_ramp)
                  ++ terminatorBytes ++ post).
Proof.
  assert (Hnumbers : Forall without_nan (points unit_ramp))
    by (repeat constructor).
  split; [|split; [exact Hnumbers|]].
  - unfold encodable. repeat split; discriminate.
  - apply (toBuffer_points_block unit_ramp); [|exact Hnumbers].
    unfold encodable. repeat split; discriminate.
Defined.

(** C2 as stated fails: with a first tag of seven bytes the records of the
    two points of the unit ramp would take 92 bytes; [toBuffer] writes 94. *)
Lemma seven_byte_tag_refuted :
  ~ exists tag t1 t2 trailer : Uint8Array,
      length tag = 7%nat /\ length t1 = 5%nat /\ length t2 = 5%nat /\
      length trailer = 5%nat /\
      exists pre post : Uint8Array,
        snd (arrayLiteral (headerAndMetadata spacerBytes) unit_ramp) = Return pre /\
        snd (arrayLiteral (trailerBlock spacerBytes stopBytes) unit_ramp)
        = Return post /\
        snd (toBuffer unit_ramp)
        = Return (pre ++ declarationBytes
                      ++ flat_map (claimedRecord tag t1 t2 trailer)
                           (points unit_ramp)
                      ++ terminatorBytes ++ post).
Proof.
  intros (tag & t1 & t2 & tr & L0 & L1 & L2 & L3 & pre & post & Hpre & Hpost & Hout).
  vm_compute in Hpre. injection Hpre as <-.
  vm_compute in Hpost. injection Hpost as <-.
  assert (Hlen : forall bytes, snd (toBuffer unit_ramp) = Return bytes ->
                               length bytes = 646%nat).
  { intros bytes H. vm_compute in H. injection H as <-. reflexivity. }
  apply Hlen in Hout. revert Hout. unfold claimedRecord.
  cbn [points unit_ramp with_points flat_map].
  rewrite !length_app. cbn [length float64_be declarationBytes terminatorBytes].
  rewrite L0, L1, L2, L3. discriminate.
Qed.

(** ** fromBuffer *)

(** C1, as the code has it: [fromBuffer] throws on every buffer, so decoding
    what [toBuffer] produced never yields a document. *)
Theorem fromBuffer_not_implemented :
  (forall buffer : Uint8Array,
     fromBuffer buffer = Throw (Error "Not implemented (yet)")) /\
  (forall (this decoded : BWCurve),
     bindC (snd (toBuffer this)) fromBuffer <> Return decoded).
Proof.
  split; [reflexivity|].
  intros this decoded. destruct (snd (toBuffer this)); simpl; discriminate.
Qed.

(** C1 as stated fails on the unit ramp: [toBuffer] returns its bytes and
    [fromBuffer] gives no document back for them. *)
Lemma roundtrip_unit_ramp_fails :
  (exists bytes, snd (toBuffer unit_ramp) = Return bytes) /\
  ~ exists (bytes : Uint8Array) (decoded : BWCurve),
      snd (toBuffer unit_ramp) = Return bytes /\
      fromBuffer bytes = Return decoded /\
      points decoded = points unit_ramp /\
      metadata decoded = metadata unit_ramp.
Proof.
  split.
  - eexists. vm_compute. reflexivity.
  - intros (bytes & decoded & _ & H & _). discriminate H.
Qed.

(** * The rest of the class

    The methods of [BWCurve] that the statements above did not need, with
    the same conventions. [sort] is left out: the order in which
    [Array.prototype.sort] calls the comparator, and what it returns when
    the comparator is not consistent (an x that is NaN), are the engine's.
    [invert] and [addTag] write into the point objects and the tag array
    they find; as above, each method is modelled by the receiver after the
    call, and the statements below are about that one document. *)

(** ** More of the runtime *)

(** [Array.prototype.filter]: the callback receives the element, its index
    and the array that is being filtered. *)
Fixpoint filter_from {A} (callback : A -> nat -> list A -> bool)
    (array : list A) (index : nat) (rest : list A) : list A :=
  match rest with
  | [] => []
  | a :: rest' =>
      if callback a index array
      then a :: filter_from callback array (S index) rest'
      else filter_from callback array (S index) rest'
  end.

Definition Array_filter {A} (callback : A -> nat -> list A -> bool) (array : list A)
  : list A :=
  filter_from callback array 0%nat array.

(** [Array.prototype.findIndex]: the index of the first element the callback
    accepts, [-1] when there is none. *)
Fixpoint findIndex_from {A} (callback : A -> bool) (index : Z) (rest : list A) : Z :=
  match rest with
  | [] => -1
  | a :: rest' =>
      if callback a then index else findIndex_from callback (index + 1) rest'
  end.

Definition Array_findIndex {A} (callback : A -> bool) (array : list A) : Z :=
  findIndex_from callback 0 array.

(** [array.splice(start, deleteCount, ...items)] with integral arguments. *)
Definition Array_splice {A} (l : list A) (start deleteCount : Z) (items : list A)
  : list A :=
  let len := Z.of_nat (length l) in
  let actualStart :=
    if start <? 0 then Z.max (len + start) 0 else Z.min start len in
  let actualDeleteCount := Z.min (Z.max deleteCount 0) (len - actualStart) in
  firstn (Z.to_nat actualStart) l ++ items
  ++ skipn (Z.to_nat (actualStart + actualDeleteCount)) l.

(** [array[index]] for an integral [index]: [None] stands for [undefined]. *)
Definition Array_at {A} (l : list A) (index : Z) : option A :=
  if index <? 0 then None else nth_error l (Z.to_nat index).

(** ** More of the class *)

(** What a converter of [setPoints] returns: x, y and possibly a slope. *)
Record ConvertedPoint : Type := {
  converted_x : number;
  converted_y : number;
  converted_slope : option number
}.

Definition setPoints {T} (this : BWCurve) (source : list T)
    (converter : T -> nat -> list T -> ConvertedPoint) : BWCurve :=
  with_points this
    (Array_map
       (fun p idx array =>
          let c := converter p idx array in
          {| x := converted_x c;
             y := converted_y c;
             slope := match converted_slope c with
                      | Some s => s
                      | None => 0%float
                      end |})
       source).

Definition getMaxY (this : BWCurve) : number :=
  Math_max (List.map y (points this)).

Definition getMinX (this : BWCurve) : number :=
  Math_min (List.map x (points this)).

Definition getMinY (this : BWCurve) : number :=
  Math_min (List.map y (points this)).

Definition filter (this : BWCurve)
    (callback : BWCurvePoint -> nat -> list BWCurvePoint -> bool) : BWCurve :=
  with_points this (Array_filter callback (points this)).

Definition scaleY (this : BWCurve) (factor : number) : BWCurve :=
  with_points this (List.map (fun p => with_y p (y p * factor)%float) (points this)).

Definition fitInXRange (this : BWCurve) (min max : number) : BWCurve :=
  let minX := getMinX this in
  let this :=
    with_points this
      (List.map (fun p => with_x p (x p - minX)%float) (points this)) in
  let maxX := getMaxX this in
  let factor := ((max - min) / maxX)%float in
  scaleX this factor.

Definition fitInYRange (this : BWCurve) (min max : number) : BWCurve :=
  let minY := getMinY this in
  let this :=
    with_points this
      (List.map (fun p => with_y p (y p - minY)%float) (points this)) in
  let maxY := getMaxY this in
  let factor := ((max - min) / maxY)%float in
  scaleY this factor.

Definition shiftX (this : BWCurve) (offset : number) : BWCurve :=
  with_points this (List.map (fun p => with_x p (x p + offset)%float) (points this)).

Definition insertPointAtX (this : BWCurve) (point : BWCurvePoint) : BWCurve :=
  let fresh := {| x := x point; y := y point; slope := slope point |} in
  let index := Array_findIndex (fun p => ltb (x point) (x p)) (points this) in
  if index =? -1 then pushPoints this [OnePoint fresh]
  else with_points this (Array_splice (points this) index 0 [fresh]).

(** The loop of [invert] assigns [maxY - y] to the y of every point, with the
    [maxY] read before the loop. It writes into the point objects: the
    definition is for an array whose entries are distinct objects, one
    assignment per point. An object that [pushPoints] has put into the array
    twice is assigned twice; its x, its slope, the number of points and the
    metadata are as given here all the same. *)
Definition invert (this : BWCurve) : BWCurve :=
  let maxY := getMaxY this in
  with_points this (List.map (fun p => with_y p (maxY - y p)%float) (points this)).

(** [repeat(n, f)] for an integral [n]: the loop runs [n] times, not at all
    when [n] is zero or negative. *)
Definition repeat (this : BWCurve) (n : Z) (f : BWCurve -> BWCurve) : BWCurve :=
  Nat.iter (Z.to_nat n) f this.

Definition get (this : BWCurve) (index : Z) : option BWCurvePoint :=
  Array_at (points this) index.

Definition with_tags (m : BWCurveMetadata) (ts : list jsstring) : BWCurveMetadata :=
  {| creator := creator m; description := description m; name := name m;
     tags := ts; category := category m |}.

Definition setCategory (this : BWCurve) (c : BWCurveCategories) : BWCurve :=
  with_metadata this
    {| creator := creator (metadata this);
       description := description (metadata this);
       name := name (metadata this);
       tags := tags (metadata this);
       category := c |}.

Definition setCreator (this : BWCurve) (s : jsstring) : BWCurve :=
  with_metadata this
    {| creator := s;
       description := description (metadata this);
       name := name (metadata this);
       tags := tags (metadata this);
       category := category (metadata this) |}.

Definition setName (this : BWCurve) (s : jsstring) : BWCurve :=
  with_metadata this
    {| creator := creator (metadata this);
       description := description (metadata this);
       name := s;
       tags := tags (metadata this);
       category := category (metadata this) |}.

Definition setDescription (this : BWCurve) (s : jsstring) : BWCurve :=
  with_metadata this
    {| creator := creator (metadata this);
       description := s;
       name := name (metadata this);
       tags := tags (metadata this);
       category := category (metadata this) |}.

Definition addTag (this : BWCurve) (tag : jsstring) : BWCurve :=
  with_metadata this (with_tags (metadata this) (get_tags this ++ [tag])).

Definition removeTag (this : BWCurve) (tag : jsstring) : BWCurve :=
  with_metadata this
    (with_tags (metadata this)
       (List.filter (fun t => negb (jsstring_eqb t tag)) (get_tags this))).

(** ** Arrays, again *)

Lemma map_from_length {A B} (f : A -> nat -> list A -> B) (array rest : list A)
    (i : nat) :
  length (map_from f array i rest) = length rest.
Proof.
  revert i. induction rest as [|a rest IH]; intros i; simpl; [reflexivity|].
  now rewrite IH.
Qed.

Lemma map_from_nth {A B} (f : A -> nat -> list A -> B) (array rest : list A)
    (i k : nat) :
  nth_error (map_from f array i rest) k
  = option_map (fun a => f a (i + k)%nat array) (nth_error rest k).
Proof.
  revert i k. induction rest as [|a rest IH]; intros i k.
  - destruct k; reflexivity.
  - destruct k as [|k]; simpl.
    + now rewrite Nat.add_0_r.
    + rewrite IH. now rewrite Nat.add_succ_comm.
Qed.

Lemma Array_at_in_range {A} (l : list A) (index : Z) :
  0 <= index < Z.of_nat (length l) ->
  exists a, Array_at l index = Some a.
Proof.
  intros H. unfold Array_at.
  destruct (Z.ltb_spec index 0) as [Hn|_]; [lia|].
  destruct (nth_error l (Z.to_nat index)) as [a|] eqn:E; [eauto|].
  apply nth_error_None in E. lia.
Qed.

Lemma Array_at_out_of_range {A} (l : list A) (index : Z) :
  index < 0 \/ Z.of_nat (length l) <= index -> Array_at l index = None.
Proof.
  intros H. unfold Array_at.
  destruct (Z.ltb_spec index 0) as [Hn|Hp]; [reflexivity|].
  apply nth_error_None. lia.
Qed.

(** ** setPoints *)

(** X1: [setPoints] forgets the points the document had: afterwards there is
    one point per element of the source, and the point at position [i] is
    what the converter made of the [i]-th element, called with that element,
    [i] and the whole source, with slope 0 where the converter gave none; the
    metadata are kept. *)
Theorem setPoints_replaces {T} (this : BWCurve) (source : list T)
    (converter : T -> nat -> list T -> ConvertedPoint) :
  pointCount (setPoints this source converter) = length source /\
  metadata (setPoints this source converter) = metadata this /\
  (forall (i : nat) (e : T),
     nth_error source i = Some e ->
     get (setPoints this source converter) (Z.of_nat i)
     = Some {| x := converted_x (converter e i source);
               y := converted_y (converter e i source);
               slope := match converted_slope (converter e i source) with
                        | Some s => s
                        | None => 0%float
                        end |}) /\
  (forall other : BWCurve,
     points (setPoints other source converter)
     = points (setPoints this source converter)).
Proof.
  unfold setPoints, pointCount, get. simpl. repeat split.
  - apply map_from_length.
  - intros i e He. unfold Array_at.
    destruct (Z.ltb_spec (Z.of_nat i) 0) as [Hn|_]; [lia|].
    rewrite Nat2Z.id. unfold Array_map. rewrite map_from_nth, He. reflexivity.
Qed.

(** ** pushPoints and spliceCurve *)

(** The points an argument of [pushPoints] stands for. *)
Definition arg_points (a : PointsArg) : list BWCurvePoint :=
  match a with
  | OnePoint p => [p]
  | PointArray ps => ps
  end.

Lemma pushPoints_fold (args : list PointsArg) (this : BWCurve) :
  fold_left
    (fun this point =>
       match point with
       | PointArray ps => with_points this (points this ++ ps)
       | OnePoint p => with_points this (points this ++ [p])
       end)
    args this
  = with_points this (points this ++ flat_map arg_points args).
Proof.
  revert this. induction args as [|a args IH]; intros this; simpl.
  - rewrite app_nil_r. now destruct this.
  - rewrite IH. destruct a; unfold with_points; simpl; now rewrite <- app_assoc.
Qed.

(** X2: [pushPoints] appends its arguments in the order they are given, an
    array argument contributing its points in their order, and keeps the
    points that were there, the metadata and nothing else. *)
Theorem pushPoints_appends (this : BWCurve) (args : list PointsArg) :
  points (pushPoints this args) = points this ++ flat_map arg_points args /\
  metadata (pushPoints this args) = metadata this /\
  pointCount (pushPoints this args)
  = (pointCount this + length (flat_map arg_points args))%nat.
Proof.
  unfold pushPoints, pointCount. rewrite pushPoints_fold. simpl.
  repeat split. apply length_app.
Qed.

(** What [spliceCurve] leaves of its two documents apart from the x values. *)
Lemma spliceCurve_frame (this curve : BWCurve) :
  length (points (spliceCurve this curve))
  = (length (points this) + length (points curve))%nat /\
  List.map y (points (spliceCurve this curve))
  = List.map y (points this) ++ List.map y (points curve) /\
  List.map slope (points (spliceCurve this curve))
  = List.map slope (points this) ++ List.map slope (points curve) /\
  metadata (spliceCurve this curve) = metadata this.
Proof.
  destruct (points curve) as [|c cs] eqn:Ec.
  - unfold spliceCurve. rewrite Ec. simpl.
    rewrite !app_nil_r. repeat split. lia.
  - destruct (points this) as [|t ts] eqn:Et.
    + unfold spliceCurve. rewrite Ec, Et. simpl. repeat split.
    + assert (Hm : metadata (spliceCurve this curve) = metadata this).
      { unfold spliceCurve. rewrite Ec, Et. simpl. reflexivity. }
      rewrite spliceCurve_nonempty by congruence.
      rewrite Ec, Et.
      rewrite length_app, length_map, !List.map_app, !List.map_map.
      repeat split; assumption.
Qed.

(** X3: whatever the two documents, after [spliceCurve] the receiver has the
    points of both: its own first, as they were, then as many as the
    argument has, with the argument's y and slope values in their order. *)
Theorem spliceCurve_concatenates (this curve : BWCurve) :
  pointCount (spliceCurve this curve)
  = (pointCount this + pointCount curve)%nat /\
  firstn (pointCount this) (points (spliceCurve this curve)) = points this /\
  List.map y (points (spliceCurve this curve))
  = List.map y (points this) ++ List.map y (points curve) /\
  List.map slope (points (spliceCurve this curve))
  = List.map slope (points this) ++ List.map slope (points curve) /\
  metadata (spliceCurve this curve) = metadata this.
Proof.
  unfold pointCount.
  destruct (points curve) as [|c cs] eqn:Ec.
  - unfold spliceCurve. rewrite Ec. simpl.
    rewrite !app_nil_r, firstn_all. repeat split. lia.
  - destruct (points this) as [|t ts] eqn:Et.
    + unfold spliceCurve. rewrite Ec, Et. simpl. repeat split.
    + rewrite spliceCurve_nonempty by congruence.
      rewrite Ec, Et.
      assert (Hm : metadata (spliceCurve this curve) = metadata this).
      { unfold spliceCurve. rewrite Ec, Et. simpl. reflexivity. }
      rewrite length_app, length_map, !List.map_app, !List.map_map.
      repeat split; try assumption.
      rewrite <- (Nat.add_0_r (length (t :: ts))) at 1.
      rewrite firstn_app_2. simpl. now rewrite app_nil_r.
Qed.

(** ** filter *)

Lemma filter_from_ignore {A} (f : A -> bool) (array rest : list A) (i : nat) :
  filter_from (fun a _ _ => f a) array i rest = List.filter f rest.
Proof.
  revert i. induction rest as [|a rest IH]; intros i; simpl; [reflexivity|].
  now rewrite IH.
Qed.

Lemma filter_from_sublist {A} (cb : A -> nat -> list A -> bool)
    (array rest : list A) (i : nat) :
  incl (filter_from cb array i rest) rest /\
  (length (filter_from cb array i rest) <= length rest)%nat.
Proof.
  revert i. induction rest as [|a rest IH]; intros i; simpl.
  - split; [apply incl_nil_l | lia].
  - destruct (IH (S i)) as [Hi Hl].
    destruct (cb a i array); simpl; split; try lia.
    + apply incl_cons; [now left | now apply incl_tl].
    + now apply incl_tl.
Qed.

Lemma filter_filter {A} (f : A -> bool) (l : list A) :
  List.filter f (List.filter f l) = List.filter f l.
Proof.
  induction l as [|a l IH]; simpl; [reflexivity|].
  destruct (f a) eqn:E; simpl; [now rewrite E, IH | exact IH].
Qed.

(** X4: [filter] never adds a point: what it leaves are points the document
    had, no more of them than before, under the same metadata. With a
    callback that looks at the point only, it leaves exactly the points the
    callback accepts, in their order, and filtering again changes nothing. *)
Theorem filter_keeps_accepted (this : BWCurve) :
  (forall cb : BWCurvePoint -> nat -> list BWCurvePoint -> bool,
     incl (points (filter this cb)) (points this) /\
     (pointCount (filter this cb) <= pointCount this)%nat /\
     metadata (filter this cb) = metadata this) /\
  (forall f : BWCurvePoint -> bool,
     points (filter this (fun p _ _ => f p)) = List.filter f (points this) /\
     Forall (fun p => f p = true) (points (filter this (fun p _ _ => f p))) /\
     filter (filter this (fun p _ _ => f p)) (fun p _ _ => f p)
     = filter this (fun p _ _ => f p)).
Proof.
  split.
  - intros cb. unfold filter, pointCount, Array_filter. simpl.
    destruct (filter_from_sublist cb (points this) (points this) 0) as [Hi Hl].
    repeat split; assumption.
  - intros f. unfold filter, Array_filter. simpl.
    rewrite !filter_from_ignore. repeat split.
    + apply Forall_forall. intros p Hp. apply filter_In in Hp. tauto.
    + unfold with_points. simpl. f_equal. apply filter_filter.
Qed.

(** ** Tags *)

Lemma jsstring_eqb_eq (a b : jsstring) : jsstring_eqb a b = true <-> a = b.
Proof.
  revert b. induction a as [|c a IH]; intros [|d b]; simpl;
    try (split; [discriminate | discriminate]); [tauto|].
  rewrite andb_true_iff, N.eqb_eq, IH. split.
  - intros [-> ->]. reflexivity.
  - intros H. injection H as -> ->. split; reflexivity.
Qed.

Lemma filter_absent {A} (f : A -> bool) (l : list A) :
  Forall (fun a => f a = true) l -> List.filter f l = l.
Proof.
  induction 1 as [|a l Ha _ IH]; simpl; [reflexivity|]. now rewrite Ha, IH.
Qed.

(** X5: [removeTag] removes every occurrence of the tag and no other tag,
    keeping the order of the rest; on a document that does not have the tag
    it changes nothing; and adding a tag and removing it again leaves the
    document as removing it alone would, so earlier copies of the tag are
    lost too. *)
Theorem removeTag_removes_all (this : BWCurve) (tag : jsstring) :
  ~ In tag (get_tags (removeTag this tag)) /\
  (forall t, t <> tag ->
             (In t (get_tags (removeTag this tag)) <-> In t (get_tags this))) /\
  get_tags (removeTag this tag)
  = List.filter (fun t => negb (jsstring_eqb t tag)) (get_tags this) /\
  (~ In tag (get_tags this) -> get_tags (removeTag this tag) = get_tags this) /\
  removeTag (addTag this tag) tag = removeTag this tag /\
  points (removeTag this tag) = points this.
Proof.
  assert (E : jsstring_eqb tag tag = true) by now apply jsstring_eqb_eq.
  unfold removeTag, addTag, get_tags, with_tags, with_metadata. simpl.
  split; [|split; [|split; [|split; [|split]]]].
  - intros H. apply filter_In in H. destruct H as [_ H].
    apply negb_true_iff in H. congruence.
  - intros t Hneq. split.
    + intros H. apply filter_In in H. tauto.
    + intros H. apply filter_In. split; [exact H|].
      apply negb_true_iff. destruct (jsstring_eqb t tag) eqn:Et; [|reflexivity].
      apply jsstring_eqb_eq in Et. contradiction.
  - reflexivity.
  - intros Habsent. apply filter_absent. apply Forall_forall. intros t Ht.
    apply negb_true_iff. destruct (jsstring_eqb t tag) eqn:Et; [|reflexivity].
    apply jsstring_eqb_eq in Et. subst. contradiction.
  - f_equal. f_equal. rewrite filter_app. simpl.
    rewrite E. simpl. apply app_nil_r.
  - reflexivity.
Qed.

(** ** repeat *)

Lemma iter_add {A} (f : A -> A) (n m : nat) (a : A) :
  Nat.iter (n + m) f a = Nat.iter m f (Nat.iter n f a).
Proof.
  induction m as [|m IH]; simpl.
  - now rewrite Nat.add_0_r.
  - rewrite Nat.add_succ_r. simpl. now rewrite IH.
Qed.

(** X6: [repeat] applies the function the given number of times, first
    application first: no time at all for zero or a negative count, once more
    for a count one greater, and repeating [n + m] times is repeating [n]
    times, then [m] times on the result. *)
Theorem repeat_composes (this : BWCurve) (f : BWCurve -> BWCurve) :
  (forall n, n <= 0 -> repeat this n f = this) /\
  (forall n, 0 <= n -> repeat this (n + 1) f = f (repeat this n f)) /\
  (forall n m, 0 <= n -> 0 <= m ->
               repeat this (n + m) f = repeat (repeat this n f) m f).
Proof.
  unfold repeat. repeat split.
  - intros n Hn. replace (Z.to_nat n) with 0%nat by lia. reflexivity.
  - intros n Hn. replace (Z.to_nat (n + 1)) with (S (Z.to_nat n)) by lia.
    reflexivity.
  - intros n m Hn Hm. rewrite Z2Nat.inj_add by assumption. apply iter_add.
Qed.

(** ** get and removePoint *)

Lemma nth_error_remove {A} (l : list A) (i j : nat) :
  (i < length l)%nat ->
  nth_error (firstn i l ++ skipn (S i) l) j
  = if (j <? i)%nat then nth_error l j else nth_error l (S j).
Proof.
  intros Hi. destruct (Nat.ltb_spec j i) as [Hlt|Hge].
  - rewrite nth_error_app1 by (rewrite length_firstn; lia).
    rewrite nth_error_firstn.
    destruct (Nat.ltb_spec j i); [reflexivity | lia].
  - rewrite nth_error_app2 by (rewrite length_firstn; lia).
    rewrite length_firstn, Nat.min_l by lia.
    rewrite nth_error_skipn. f_equal. lia.
Qed.

Lemma splice1_in_range {A} (l : list A) (start : Z) :
  0 <= start < Z.of_nat (length l) ->
  splice1 l start
  = firstn (Z.to_nat start) l ++ skipn (S (Z.to_nat start)) l.
Proof.
  intros H. unfold splice1.
  destruct (Z.ltb_spec start 0) as [Hn|_]; [lia|].
  rewrite Z.min_l by lia.
  replace (Z.to_nat (start + Z.min (Z.max 1 0) (Z.of_nat (length l) - start)))
    with (S (Z.to_nat start)) by lia.
  reflexivity.
Qed.

(** X7: [get] answers [undefined] exactly outside the positions of the
    document. [removePoint] at a position of the document removes that point
    and no other: the count goes down by one, the points before keep their
    position and those after move down by one. *)
Theorem get_after_removePoint (this : BWCurve) (index : Z) :
  (get this index = None <->
   index < 0 \/ Z.of_nat (pointCount this) <= index) /\
  (0 <= index < Z.of_nat (pointCount this) ->
   pointCount (removePoint this index) = (pointCount this - 1)%nat /\
   forall j, 0 <= j ->
     get (removePoint this index) j
     = if j <? index then get this j else get this (j + 1)).
Proof.
  unfold get, pointCount, removePoint. simpl. split.
  - split.
    + intros H. destruct (Z.lt_ge_cases index 0) as [Hn|Hp]; [now left|].
      right. destruct (Z.lt_ge_cases index (Z.of_nat (length (points this))))
        as [Hlt|Hge]; [|exact Hge].
      destruct (Array_at_in_range (points this) index ltac:(lia)) as [a Ha].
      congruence.
    + apply Array_at_out_of_range.
  - intros Hin. rewrite splice1_in_range by exact Hin. split.
    + rewrite length_app, length_firstn, length_skipn. lia.
    + intros j Hj. unfold Array_at.
      destruct (Z.ltb_spec j 0) as [Hn|_]; [lia|].
      destruct (Z.ltb_spec (j + 1) 0) as [Hn|_]; [lia|].
      rewrite nth_error_remove by lia.
      destruct (Z.ltb_spec j index) as [Hlt|Hge];
        destruct (Nat.ltb_spec (Z.to_nat j) (Z.to_nat index)) as [Hlt'|Hge'];
        try lia; [reflexivity|].
      f_equal. lia.
Qed.

(** ** insertPointAtX *)

Lemma findIndex_from_spec {A} (f : A -> bool) (l : list A) (i : Z) :
  (findIndex_from f i l = -1 -> 0 <= i -> Forall (fun a => f a = false) l) /\
  (0 <= i -> findIndex_from f i l <> -1 ->
   exists k a,
     findIndex_from f i l = i + Z.of_nat k /\
     nth_error l k = Some a /\ f a = true /\
     Forall (fun a => f a = false) (firstn k l)).
Proof.
  revert i. induction l as [|a l IH]; intros i; simpl.
  - split; [constructor | congruence].
  - destruct (f a) eqn:Ea.
    + split; [lia|]. intros Hi _. exists 0%nat, a. simpl.
      repeat split; [lia | assumption | constructor].
    + destruct (IH (i + 1)) as [Hnone Hsome]. split.
      * intros H Hi. constructor; [exact Ea | apply Hnone; [exact H | lia]].
      * intros Hi Hne. destruct (Hsome ltac:(lia) Hne) as (k & b & Hk & Hb & Hfb & Hall).
        exists (S k), b. simpl. repeat split; try assumption; [lia|].
        constructor; assumption.
Qed.

Lemma Array_splice_insert {A} (l : list A) (k : nat) (a : A) :
  (k <= length l)%nat ->
  Array_splice l (Z.of_nat k) 0 [a] = firstn k l ++ a :: skipn k l.
Proof.
  intros Hk. unfold Array_splice.
  destruct (Z.ltb_spec (Z.of_nat k) 0) as [Hn|_]; [lia|].
  rewrite Z.min_l by lia.
  replace (Z.of_nat k + Z.min (Z.max 0 0) (Z.of_nat (length l) - Z.of_nat k))
    with (Z.of_nat k) by lia.
  rewrite Nat2Z.id. reflexivity.
Qed.

(** Where [insertPointAtX] puts the point. *)
Lemma insertPointAtX_split (this : BWCurve) (point : BWCurvePoint) :
  exists before after : list BWCurvePoint,
    points this = before ++ after /\
    points (insertPointAtX this point) = before ++ point :: after /\
    Forall (fun p => ltb (x point) (x p) = false) before /\
    match after with
    | [] => True
    | p :: _ => ltb (x point) (x p) = true
    end /\
    pointCount (insertPointAtX this point) = S (pointCount this) /\
    metadata (insertPointAtX this point) = metadata this.
Proof.
  assert (Hfresh : {| x := x point; y := y point; slope := slope point |} = point)
    by now destruct point.
  unfold insertPointAtX, pointCount. rewrite Hfresh. cbv zeta.
  unfold Array_findIndex.
  destruct (findIndex_from_spec (fun p => ltb (x point) (x p)) (points this) 0)
    as [Hnone Hsome].
  destruct (Z.eqb_spec
              (findIndex_from (fun p => ltb (x point) (x p)) 0 (points this)) (-1))
    as [E|E].
  - exists (points this), []. unfold pushPoints. simpl.
    rewrite app_nil_r, length_app. simpl.
    repeat split; [apply Hnone; [exact E | lia] | lia].
  - destruct (Hsome ltac:(lia) E) as (k & a & Hk & Ha & Hfa & Hall).
    assert (Hlen : (k < length (points this))%nat)
      by (apply nth_error_Some; congruence).
    exists (firstn k (points this)), (skipn k (points this)).
    rewrite Hk, Z.add_0_l, Array_splice_insert by lia. simpl.
    rewrite firstn_skipn.
    assert (Hsk : skipn k (points this) = a :: skipn (S k) (points this)).
    { clear - Ha. revert k Ha. induction (points this) as [|b l IH]; intros k Ha.
      - destruct k; discriminate.
      - destruct k; simpl in *; [congruence | now apply IH]. }
    repeat split; try assumption.
    + rewrite Hsk. exact Hfa.
    + rewrite length_app. simpl. rewrite length_firstn, length_skipn. lia.
Qed.

(** ** double and mirror *)

Lemma scaleX_frame (this : BWCurve) (factor : number) :
  List.map y (points (scaleX this factor)) = List.map y (points this) /\
  List.map slope (points (scaleX this factor)) = List.map slope (points this) /\
  pointCount (scaleX this factor) = pointCount this /\
  metadata (scaleX this factor) = metadata this.
Proof.
  unfold scaleX, pointCount. simpl.
  rewrite !List.map_map, length_map. simpl. repeat split.
Qed.

(** X8: on a document with more than one point, [double] leaves twice as
    many points: the y values, and the slopes, are those the document had,
    followed by the same again; a document with at most one point is left as
    it is. *)
Theorem double_repeats (this : BWCurve) :
  ((pointCount this <= 1)%nat -> double this = this) /\
  ((1 < pointCount this)%nat ->
   pointCount (double this) = (2 * pointCount this)%nat /\
   List.map y (points (double this))
   = List.map y (points this) ++ List.map y (points this) /\
   List.map slope (points (double this))
   = List.map slope (points this) ++ List.map slope (points this) /\
   metadata (double this) = metadata this).
Proof.
  unfold double, pointCount. split; intros H.
  - destruct (Nat.leb_spec (length (points this)) 1); [reflexivity | lia].
  - destruct (Nat.leb_spec (length (points this)) 1) as [Hle|_]; [lia|].
    cbv zeta.
    set (half := scaleX this (0.5 * getMaxX this)%float).
    destruct (spliceCurve_frame half half) as (Hc & Hy & Hs & Hm).
    destruct (scaleX_frame this (0.5 * getMaxX this)%float) as (Fy & Fs & Fc & Fm).
    fold half in Fy, Fs, Fc, Fm. unfold pointCount in *.
    rewrite Hc, Hy, Hs, Hm, Fy, Fs, Fc, Fm. repeat split. lia.
Qed.

Lemma reverse_frame (this : BWCurve) :
  List.map y (points (reverse this)) = rev (List.map y (points this)) /\
  List.map slope (points (reverse this)) = rev (List.map slope (points this)) /\
  pointCount (reverse this) = pointCount this /\
  metadata (reverse this) = metadata this.
Proof.
  unfold reverse, pointCount. simpl.
  rewrite !List.map_map, length_map, length_rev, <- !map_rev. simpl.
  repeat split.
Qed.

(** X9: on a document with more than one point, [mirror] leaves twice as
    many points: the y values, and the slopes, are those the document had,
    followed by the same in reverse order; a document with at most one point
    is left as it is. *)
Theorem mirror_reflects (this : BWCurve) :
  ((pointCount this <= 1)%nat -> mirror this = this) /\
  ((1 < pointCount this)%nat ->
   pointCount (mirror this) = (2 * pointCount this)%nat /\
   List.map y (points (mirror this))
   = List.map y (points this) ++ rev (List.map y (points this)) /\
   List.map slope (points (mirror this))
   = List.map slope (points this) ++ rev (List.map slope (points this)) /\
   metadata (mirror this) = metadata this).
Proof.
  unfold mirror, pointCount. split; intros H.
  - destruct (Nat.leb_spec (length (points this)) 1); [reflexivity | lia].
  - destruct (Nat.leb_spec (length (points this)) 1) as [Hle|_]; [lia|].
    cbv zeta.
    set (half := scaleX this 0.5%float).
    destruct (spliceCurve_frame half (reverse (clone half)))
      as (Hc & Hy & Hs & Hm).
    destruct (reverse_frame (clone half)) as (Ry & Rs & Rc & _).
    destruct (scaleX_frame this 0.5%float) as (Fy & Fs & Fc & Fm).
    fold half in Fy, Fs, Fc, Fm. unfold pointCount in *.
    change (points (clone half)) with (points half) in *.
    rewrite Hc, Hy, Hs, Hm, Ry, Rs, Rc, Fy, Fs, Fc, Fm. repeat split. lia.
Qed.

(** ** What the transforms leave alone *)

Lemma shiftX_frame (this : BWCurve) (offset : number) :
  List.map y (points (shiftX this offset)) = List.map y (points this) /\
  List.map slope (points (shiftX this offset)) = List.map slope (points this) /\
  pointCount (shiftX this offset) = pointCount this /\
  metadata (shiftX this offset) = metadata this.
Proof.
  unfold shiftX, pointCount. simpl.
  rewrite !List.map_map, length_map. simpl. repeat split.
Qed.

Lemma scaleY_frame (this : BWCurve) (factor : number) :
  List.map x (points (scaleY this factor)) = List.map x (points this) /\
  List.map slope (points (scaleY this factor)) = List.map slope (points this) /\
  pointCount (scaleY this factor) = pointCount this /\
  metadata (scaleY this factor) = metadata this.
Proof.
  unfold scaleY, pointCount. simpl.
  rewrite !List.map_map, length_map. simpl. repeat split.
Qed.

(** X10: [scaleX], [shiftX] and [fitInXRange] change the x of the points and
    nothing else: the y values and the slopes, point by point, the number of
    points and the metadata are as before, whatever the arguments. *)
Theorem x_transforms_keep_y_and_slope (this : BWCurve) (a b : number) :
  let unchanged (after : BWCurve) :=
    List.map y (points after) = List.map y (points this) /\
    List.map slope (points after) = List.map slope (points this) /\
    pointCount after = pointCount this /\
    metadata after = metadata this in
  unchanged (scaleX this a) /\
  unchanged (shiftX this a) /\
  unchanged (fitInXRange this a b).
Proof.
  cbv zeta. split; [apply scaleX_frame | split; [apply shiftX_frame|]].
  unfold fitInXRange. cbv zeta.
  match goal with
  | |- context [scaleX ?d ?f] =>
      destruct (scaleX_frame d f) as (Hy & Hs & Hc & Hm);
      rewrite Hy, Hs, Hc, Hm
  end.
  unfold pointCount. simpl. rewrite !List.map_map, length_map. simpl.
  repeat split.
Qed.

(** X11: [scaleY], [fitInYRange], [invert] and [clip] (with any algorithm,
    on any engine) change the y of the points and nothing else: the x values
    and the slopes, point by point, the number of points and the metadata are
    as before. *)
Theorem y_transforms_keep_x_and_slope (this : BWCurve) (a b : number)
    (Math_tanh Math_sin : number -> number) (Math_pow : number -> number -> number)
    (algorithm : jsstring) :
  let unchanged (after : BWCurve) :=
    List.map x (points after) = List.map x (points this) /\
    List.map slope (points after) = List.map slope (points this) /\
    pointCount after = pointCount this /\
    metadata after = metadata this in
  unchanged (scaleY this a) /\
  unchanged (fitInYRange this a b) /\
  unchanged (invert this) /\
  unchanged (clip Math_tanh Math_sin Math_pow this algorithm).
Proof.
  cbv zeta. split; [apply scaleY_frame | split; [|split]].
  - unfold fitInYRange. cbv zeta.
    match goal with
    | |- context [scaleY ?d ?f] =>
        destruct (scaleY_frame d f) as (Hx & Hs & Hc & Hm);
        rewrite Hx, Hs, Hc, Hm
    end.
    unfold pointCount. simpl. rewrite !List.map_map, length_map. simpl.
    repeat split.
  - unfold invert, pointCount. simpl.
    rewrite !List.map_map, length_map. simpl. repeat split.
  - unfold clip, map, pointCount.
    destruct (jsstring_eqb algorithm (lit "tanh"));
      [|destruct (jsstring_eqb algorithm (lit "sin"));
        [|destruct (jsstring_eqb algorithm (lit "cubic"))]];
      simpl; rewrite ?Array_map_ignore, ?List.map_map, ?length_map; simpl;
      repeat split.
Qed.

(** X12: [reverse] keeps the number of points and the metadata and turns the
    sequence of y values, and that of the slopes, around; reversing twice
    gives these sequences back. *)
Theorem reverse_turns_around (this : BWCurve) :
  List.map y (points (reverse this)) = rev (List.map y (points this)) /\
  List.map slope (points (reverse this)) = rev (List.map slope (points this)) /\
  pointCount (reverse this) = pointCount this /\
  metadata (reverse this) = metadata this /\
  List.map y (points (reverse (reverse this))) = List.map y (points this) /\
  List.map slope (points (reverse (reverse this)))
  = List.map slope (points this).
Proof.
  destruct (reverse_frame this) as (Hy & Hs & Hc & Hm).
  destruct (reverse_frame (reverse this)) as (Hy2 & Hs2 & _ & _).
  rewrite Hy2, Hs2, Hy, Hs, !rev_involutive. repeat split; assumption.
Qed.

(** X13: [clip] with an algorithm that is none of ['tanh'], ['sin'] and
    ['cubic'] returns the document as it is, on any engine. *)
Theorem clip_unknown_algorithm
    (Math_tanh Math_sin : number -> number) (Math_pow : number -> number -> number)
    (this : BWCurve) (algorithm : jsstring) :
  algorithm <> lit "tanh" -> algorithm <> lit "sin" ->
  algorithm <> lit "cubic" ->
  clip Math_tanh Math_sin Math_pow this algorithm = this.
Proof.
  intros Ht Hs Hc. unfold clip.
  destruct (jsstring_eqb algorithm (lit "tanh")) eqn:E1;
    [apply jsstring_eqb_eq in E1; contradiction|].
  destruct (jsstring_eqb algorithm (lit "sin")) eqn:E2;
    [apply jsstring_eqb_eq in E2; contradiction|].
  destruct (jsstring_eqb algorithm (lit "cubic")) eqn:E3;
    [apply jsstring_eqb_eq in E3; contradiction|].
  reflexivity.
Qed.

Lemma clip_unknown_algorithm_linear :
  (lit "linear" <> lit "tanh" /\ lit "linear" <> lit "sin" /\
   lit "linear" <> lit "cubic") /\
  clip approx_tanh approx_sin approx_pow clip_samples (lit "linear")
  = clip_samples.
Proof.
  split; [repeat split; discriminate|].
  apply (clip_unknown_algorithm approx_tanh approx_sin approx_pow clip_samples
           (lit "linear")); discriminate.
Defined.

(** ** The codec: when toBuffer returns, again *)

Lemma jsstring_empty_dec (s : jsstring) : {s = []} + {s <> []}.
Proof. destruct s; [now left | right; discriminate]. Qed.

Lemma encodable_dec (this : BWCurve) : {encodable this} + {~ encodable this}.
Proof.
  unfold encodable.
  destruct (jsstring_empty_dec (name (metadata this))) as [E1|N1];
    [right; tauto|].
  destruct (jsstring_empty_dec (creator (metadata this))) as [E2|N2];
    [right; tauto|].
  destruct (jsstring_empty_dec (description (metadata this))) as [E3|N3];
    [right; tauto|].
  destruct (get_tags this) as [|t [|t' ts]].
  - right. tauto.
  - destruct t as [|c t].
    + right. tauto.
    + left. repeat split; try assumption; discriminate.
  - left. repeat split; try assumption; discriminate.
Qed.

(** The shape of the buffer of an encodable document, with the bytes
    [float64_be] gives each double. *)
Lemma toBuffer_layout (this : BWCurve) :
  encodable this ->
  exists pre post : Uint8Array,
    snd (arrayLiteral (headerAndMetadata spacerBytes) this) = Return pre /\
    snd (arrayLiteral (trailerBlock spacerBytes stopBytes) this) = Return post /\
    snd (toBuffer this)
    = Return (pre ++ declarationBytes ++ flat_map pointRecord (points this)
                  ++ terminatorBytes ++ post).
Proof.
  intros Henc.
  destruct (headerAndMetadata_returns this Henc) as [pre Hpre].
  destruct (trailerBlock_returns this Henc) as [post Hpost].
  exists pre, post. repeat split; try assumption.
  rewrite toBuffer_eq. unfold bufferElements.
  rewrite (arrayLiteral_app _ _ this pre
             ((declarationBytes ++ flat_map pointRecord (points this)
                 ++ terminatorBytes) ++ post)
             (readonly_headerAndMetadata _) Hpre).
  - now rewrite <- !app_assoc.
  - apply arrayLiteral_app;
      [apply readonly_pointsBlock | apply pointsBlock_bytes | exact Hpost].
Qed.

(** X14: [toBuffer] returns a buffer exactly on the documents whose name,
    creator and description are not empty and whose tags are neither [[]]
    nor [['']]; on every other document it throws a TypeError. The points
    play no part in this. *)
Theorem toBuffer_returns_iff_encodable (this : BWCurve) :
  ((exists bytes, snd (toBuffer this) = Return bytes) <-> encodable this) /\
  (snd (toBuffer this) = Throw TypeError <-> ~ encodable this).
Proof.
  assert (Hyes : encodable this -> exists bytes, snd (toBuffer this) = Return bytes).
  { intros Henc. destruct (toBuffer_layout this Henc) as (pre & post & _ & _ & H).
    eauto. }
  split; split.
  - intros [bytes Hb]. destruct (encodable_dec this) as [Henc|Hnot]; [exact Henc|].
    rewrite (toBuffer_not_encodable this Hnot) in Hb. discriminate Hb.
  - exact Hyes.
  - intros Hthrow Henc. destruct (Hyes Henc) as [bytes Hb]. congruence.
  - apply toBuffer_not_encodable.
Qed.

(** ** The codec: what depends on what *)

Lemma arrayLiteral_ext (elements : list (Method Uint8Array)) (a b : BWCurve) :
  Forall readonly elements ->
  Forall (fun e => snd (e a) = snd (e b)) elements ->
  snd (arrayLiteral elements a) = snd (arrayLiteral elements b).
Proof.
  intros Hro Heq. induction elements as [|e rest IH]; [reflexivity|].
  inversion Hro as [|? ? He Hrest]; subst.
  inversion Heq as [|? ? Ee Erest]; subst.
  specialize (IH Hrest Erest).
  cbn [arrayLiteral]. unfold bindM at 1 3.
  pose proof (He a) as Ha. pose proof (He b) as Hb.
  destruct (e a) as [a' [x1|e1]], (e b) as [b' [x2|e2]];
    simpl in *; subst; try discriminate; [|congruence].
  injection Ee as ->.
  unfold bindM.
  pose proof (readonly_arrayLiteral rest Hrest a) as Ra.
  pose proof (readonly_arrayLiteral rest Hrest b) as Rb.
  destruct (arrayLiteral rest a) as [a' [y1|e1]],
           (arrayLiteral rest b) as [b' [y2|e2]];
    simpl in *; subst; congruence.
Qed.

Lemma hexOf_ext (f : BWCurve -> jsstring) (a b : BWCurve) :
  f a = f b -> snd (hexOf f a) = snd (hexOf f b).
Proof.
  intros H. unfold hexOf, bindM, read, liftC. simpl. now rewrite H.
Qed.

Lemma hex_ext (s : string) (a b : BWCurve) : snd (hex s a) = snd (hex s b).
Proof. unfold hex. now apply hexOf_ext. Qed.

Lemma retM_ext (v : Uint8Array) (a b : BWCurve) : snd (retM v a) = snd (retM v b).
Proof. reflexivity. Qed.

Ltac element_ext Hmeta :=
  lazymatch goal with
  | |- snd (retM _ _) = snd (retM _ _) => apply retM_ext
  | |- snd (hex _ _) = snd (hex _ _) => apply hex_ext
  | |- snd (hexOf _ _) = snd (hexOf _ _) =>
      apply hexOf_ext; unfold tagsLength, tagsHex, get_tags;
      rewrite ?Hmeta; reflexivity
  end.

Lemma headerAndMetadata_ext (a b : BWCurve) :
  metadata a = metadata b ->
  snd (arrayLiteral (headerAndMetadata spacerBytes) a)
  = snd (arrayLiteral (headerAndMetadata spacerBytes) b).
Proof.
  intros Hmeta. apply arrayLiteral_ext; [apply readonly_headerAndMetadata|].
  unfold headerAndMetadata.
  repeat (apply Forall_cons; [element_ext Hmeta|]). apply Forall_nil.
Qed.

Lemma trailerBlock_ext (a b : BWCurve) :
  metadata a = metadata b ->
  snd (arrayLiteral (trailerBlock spacerBytes stopBytes) a)
  = snd (arrayLiteral (trailerBlock spacerBytes stopBytes) b).
Proof.
  intros Hmeta. apply arrayLiteral_ext; [apply readonly_trailerBlock|].
  unfold trailerBlock.
  repeat (apply Forall_cons; [element_ext Hmeta|]). apply Forall_nil.
Qed.

Lemma app_same_length {A} (a b c d : list A) :
  length a = length b -> a ++ c = b ++ d -> a = b /\ c = d.
Proof.
  revert b. induction a as [|u a IH]; intros [|v b] Hl H; simpl in *;
    try discriminate.
  - now split.
  - injection H as -> H. destruct (IH b ltac:(lia) H) as [-> ->]. now split.
Qed.

Lemma records_injective (ps qs : list BWCurvePoint) (rest : Uint8Array) :
  flat_map pointRecord ps ++ rest = flat_map pointRecord qs ++ rest ->
  ps = qs.
Proof.
  intros H. apply app_inv_tail in H. revert qs H.
  induction ps as [|p ps IH]; intros [|q qs] H; cbn [flat_map] in H.
  - reflexivity.
  - apply (f_equal (@length _)) in H. rewrite length_app, pointRecord_length in H.
    simpl in H. lia.
  - apply (f_equal (@length _)) in H. rewrite length_app, pointRecord_length in H.
    simpl in H. lia.
  - apply app_same_length in H; [|now rewrite !pointRecord_length].
    destruct H as [Hp Hrest]. apply pointRecord_injective in Hp.
    rewrite Hp, (IH qs Hrest). reflexivity.
Qed.

Lemma Return_injective {A} (u v : A) : Return u = Return v -> u = v.
Proof. intros H. now injection H. Qed.

Lemma encodable_metadata (a b : BWCurve) :
  metadata a = metadata b -> encodable a -> encodable b.
Proof. unfold encodable, get_tags. now intros ->. Qed.

(** X15: the buffer tells the points: two documents with the same metadata
    for which [toBuffer] returns the same bytes have the same points, every
    x, y and slope the same double. *)
Theorem toBuffer_determines_points (a b : BWCurve) (bytes : Uint8Array) :
  metadata a = metadata b ->
  snd (toBuffer a) = Return bytes ->
  snd (toBuffer b) = Return bytes ->
  points a = points b.
Proof.
  intros Hmeta Ha Hb.
  assert (Ea : encodable a).
  { destruct (encodable_dec a) as [E|N]; [exact E|].
    rewrite (toBuffer_not_encodable a N) in Ha. discriminate Ha. }
  pose proof (encodable_metadata a b Hmeta Ea) as Eb.
  destruct (toBuffer_layout a Ea) as (pre & post & Hpre & Hpost & Hout).
  destruct (toBuffer_layout b Eb) as (pre' & post' & Hpre' & Hpost' & Hout').
  rewrite (headerAndMetadata_ext a b Hmeta), Hpre' in Hpre.
  rewrite (trailerBlock_ext a b Hmeta), Hpost' in Hpost.
  apply Return_injective in Hpre, Hpost. subst pre' post'.
  rewrite Ha in Hout. rewrite Hb in Hout'.
  apply Return_injective in Hout, Hout'. rewrite Hout in Hout'.
  apply app_inv_head in Hout'. apply app_inv_head in Hout'.
  now apply records_injective in Hout'.
Qed.

Lemma toBuffer_determines_points_unit_ramp :
  metadata unit_ramp = metadata (spliceCurve new_BWCurve unit_ramp) /\
  points unit_ramp = points (spliceCurve new_BWCurve unit_ramp).
Proof.
  split; [reflexivity|].
  assert (E : snd (toBuffer (spliceCurve new_BWCurve unit_ramp))
              = snd (toBuffer unit_ramp)) by (vm_compute; reflexivity).
  destruct (toBuffer_layout unit_ramp) as (pre & post & _ & _ & Hout).
  { unfold encodable. repeat split; discriminate. }
  apply (toBuffer_determines_points unit_ramp
           (spliceCurve new_BWCurve unit_ramp) _ eq_refl Hout).
  rewrite E. exact Hout.
Defined.

(** X16: a buffer grows by 47 bytes for every point: for encodable metadata
    there is a length, that of the buffer without points, such that with any
    points [toBuffer] returns that many bytes and 47 more per point. *)
Theorem toBuffer_length (this : BWCurve) :
  encodable this ->
  exists base : nat,
    forall ps : list BWCurvePoint,
    exists bytes : Uint8Array,
      snd (toBuffer (with_points this ps)) = Return bytes /\
      length bytes = (base + 47 * length ps)%nat.
Proof.
  intros Henc.
  destruct (toBuffer_layout this Henc) as (pre & post & Hpre & Hpost & _).
  exists (length pre + length declarationBytes + length terminatorBytes
          + length post)%nat.
  intros ps.
  assert (Hm : metadata this = metadata (with_points this ps)) by reflexivity.
  destruct (toBuffer_layout (with_points this ps)
              (encodable_metadata _ _ Hm Henc))
    as (pre' & post' & Hpre' & Hpost' & Hout).
  rewrite <- (headerAndMetadata_ext this _ Hm), Hpre in Hpre'.
  rewrite <- (trailerBlock_ext this _ Hm), Hpost in Hpost'.
  apply Return_injective in Hpre', Hpost'. subst pre' post'.
  eexists. split; [exact Hout|].
  rewrite !length_app. simpl points.
  assert (Hrec : forall l, length (flat_map pointRecord l) = (47 * length l)%nat).
  { induction l as [|p l IH]; [reflexivity|].
    cbn [flat_map]. rewrite length_app, pointRecord_length, IH. simpl. lia. }
  rewrite Hrec. lia.
Qed.

Lemma toBuffer_length_default :
  encodable new_BWCurve /\
  exists base : nat,
    forall ps : list BWCurvePoint,
    exists bytes : Uint8Array,
      snd (toBuffer (with_points new_BWCurve ps)) = Return bytes /\
      length bytes = (base + 47 * length ps)%nat.
Proof.
  split.
  - unfold encodable. repeat split; discriminate.
  - apply (toBuffer_length new_BWCurve).
    unfold encodable. repeat split; discriminate.
Defined.

(** ** The codec: how text is written *)

Lemma below_by_check (bound : nat) (P : N -> bool) :
  forallb P (List.map N.of_nat (seq 0 bound)) = true ->
  forall n : N, (n < N.of_nat bound)%N -> P n = true.
Proof.
  intros H n Hn. rewrite forallb_forall in H. apply H.
  apply in_map_iff. exists (N.to_nat n). split; [apply N2Nat.id|].
  apply in_seq. lia.
Qed.

(** The digits of a code unit between 16 and 255: two of them, which make
    one byte, the code unit. *)
Definition one_byte_unit (c : N) : bool :=
  ((c <? 16) || (255 <? c))%N
  || match toString16 c with
     | [h; l] =>
         negb (is_whitespace h) && negb (is_whitespace l)
         && (ToUint8 (parseInt16 [h; l]) =? Z.of_N c)
     | _ => false
     end.

Lemma one_byte_units (c : N) :
  (16 <= c <= 255)%N ->
  exists h l,
    toString16 c = [h; l] /\ is_whitespace h = false /\
    is_whitespace l = false /\ ToUint8 (parseInt16 [h; l]) = Z.of_N c.
Proof.
  intros Hc.
  assert (H : one_byte_unit c = true).
  { apply (below_by_check 256); [vm_compute; reflexivity | lia]. }
  unfold one_byte_unit in H.
  destruct (N.ltb_spec c 16) as [?|_]; [lia|].
  destruct (N.ltb_spec 255 c) as [?|_]; [lia|].
  simpl in H.
  destruct (toString16 c) as [|h [|l [|? ?]]]; try discriminate H.
  apply andb_prop in H. destruct H as [H Hv].
  apply andb_prop in H. destruct H as [Hh Hl].
  apply negb_true_iff in Hh, Hl. apply Z.eqb_eq in Hv.
  exists h, l. repeat split; assumption.
Qed.

Lemma join_empty_separator (l : list jsstring) : join [] l = concat l.
Proof.
  induction l as [|s l IH]; [reflexivity|].
  cbn [join concat]. destruct l as [|s' l'].
  - now rewrite app_nil_r.
  - now rewrite IH.
Qed.

(** What [fromHexString] makes of a string that is a sequence of pairs of
    digits. *)
Lemma fromHexString_pairs (units : list N) (fuel : nat) :
  Forall (fun c => (16 <= c <= 255)%N) units ->
  (length units <= fuel)%nat ->
  List.filter (fun c => negb (is_whitespace c)) (concat (List.map toString16 units))
  = concat (List.map toString16 units) /\
  List.map (fun byte => ToUint8 (parseInt16 byte))
    (pairs (concat (List.map toString16 units)) fuel)
  = List.map Z.of_N units /\
  length (concat (List.map toString16 units)) = (2 * length units)%nat.
Proof.
  intros Hall. revert fuel. induction Hall as [|c units Hc _ IH]; intros fuel Hf.
  - repeat split. destruct fuel; reflexivity.
  - destruct (one_byte_units c Hc) as (h & l & Hd & Hh & Hl & Hv).
    destruct fuel as [|fuel]; [simpl in Hf; lia|].
    destruct (IH fuel ltac:(simpl in Hf; lia)) as (Hfil & Hmap & Hlen).
    cbn [List.map concat]. rewrite Hd. cbn [app List.filter pairs List.map length].
    rewrite Hh, Hl. cbn [negb]. rewrite Hfil, Hmap, Hv, Hlen.
    repeat split. lia.
Qed.

(** X17: for a text that is not empty and whose code units all lie between
    16 and 255 (two hexadecimal digits each), the bytes [toBuffer] writes
    for it, [fromHexString(stringToHex(text))], are its code units, one byte
    each. *)
Theorem text_bytes_are_code_units (text : jsstring) :
  text <> [] ->
  Forall (fun c => (16 <= c <= 255)%N) text ->
  fromHexString (stringToHex text) = Return (List.map Z.of_N text).
Proof.
  intros Hne Hall. unfold stringToHex, fromHexString.
  rewrite join_empty_separator.
  destruct (fromHexString_pairs text (length (concat (List.map toString16 text)))
              Hall) as (Hfil & Hmap & Hlen).
  { destruct (fromHexString_pairs text (length text) Hall (Nat.le_refl _))
      as (_ & _ & Hl). rewrite Hl. lia. }
  change (List.map (fun c => toString16 c) text) with (List.map toString16 text).
  rewrite Hfil. unfold match_pairs.
  destruct (concat (List.map toString16 text)) as [|d ds] eqn:E.
  - destruct text; [congruence|]. simpl in Hlen. lia.
  - rewrite Hmap. reflexivity.
Qed.

Lemma text_bytes_default :
  (lit "default" <> [] /\ Forall (fun c => (16 <= c <= 255)%N) (lit "default")) /\
  fromHexString (stringToHex (lit "default"))
  = Return (List.map Z.of_N (lit "default")).
Proof.
  assert (Hne : lit "default" <> []) by discriminate.
  assert (Hall : Forall (fun c => (16 <= c <= 255)%N) (lit "default")).
  { repeat constructor; vm_compute; discriminate. }
  split; [now split|].
  apply (text_bytes_are_code_units (lit "default") Hne Hall).
Defined.

(** The length byte of a field holding [n] code units. *)
Definition length_prefix (n : N) : Completion Uint8Array :=
  fromHexString (toString16 n).

Definition short_prefix (n : N) : bool :=
  match length_prefix n with
  | Return [b] => b =? Z.of_N n
  | _ => false
  end.

Definition long_prefix (n : N) : bool :=
  (n <? 256)%N
  || match length_prefix n with
     | Return [b1; b2] => (b1 =? Z.of_N n / 16) && (b2 =? Z.of_N n mod 16)
     | _ => false
     end.

(** X18: the length [toBuffer] writes before a text, the digits of
    [length.toString(16)] read as bytes, is one byte holding the length for
    up to 255 code units; from 256 to 4095 code units it is two bytes, the
    length divided by 16 and the remainder, so that 256 code units give the
    bytes 16 and 0. *)
Theorem length_prefix_bytes (n : N) :
  ((n <= 255)%N -> length_prefix n = Return [Z.of_N n]) /\
  ((256 <= n <= 4095)%N ->
   length_prefix n = Return [Z.of_N n / 16; Z.of_N n mod 16]).
Proof.
  split; intros Hn.
  - assert (H : short_prefix n = true).
    { apply (below_by_check 256); [vm_compute; reflexivity | lia]. }
    unfold short_prefix in H.
    destruct (length_prefix n) as [[|b [|? ?]]|e]; try discriminate H.
    apply Z.eqb_eq in H. now subst.
  - assert (H : long_prefix n = true).
    { apply (below_by_check 4096); [vm_compute; reflexivity | lia]. }
    unfold long_prefix in H.
    destruct (N.ltb_spec n 256) as [?|_]; [lia|]. simpl in H.
    destruct (length_prefix n) as [[|b1 [|b2 [|? ?]]]|e]; try discriminate H.
    apply andb_prop in H. destruct H as [H1 H2].
    apply Z.eqb_eq in H1, H2. now subst.
Qed.

(** ** The order of the doubles *)

Section DoubleOrder.

Lemma Prim2SF_nan : Prim2SF nan = S754_nan.
Proof. reflexivity. Qed.

Lemma SFcompare_refl (a : spec_float) :
  a <> S754_nan -> SFcompare a a = Some Eq.
Proof.
  destruct a as [s|s| |s m e]; intros H; simpl; try congruence.
  - now destruct s.
  - rewrite Z.compare_refl, Pos.compare_cont_refl. now destruct s.
Qed.

Lemma is_nan_spec (v : number) : is_nan v = true <-> Prim2SF v = S754_nan.
Proof.
  unfold is_nan. rewrite eqb_spec. unfold SFeqb. split.
  - intros H. destruct (Prim2SF v) as [s|s| |s m e] eqn:E; try reflexivity;
      rewrite SFcompare_refl in H by discriminate; discriminate H.
  - intros ->. reflexivity.
Qed.

Lemma is_nan_eq (v : number) : is_nan v = true -> v = nan.
Proof.
  intros H. apply Prim2SF_inj. rewrite Prim2SF_nan. now apply is_nan_spec.
Qed.

Lemma not_nan_spec (v : number) : is_nan v = false <-> Prim2SF v <> S754_nan.
Proof.
  split.
  - intros H E. apply is_nan_spec in E. congruence.
  - intros H. destruct (is_nan v) eqn:E; [|reflexivity].
    apply is_nan_spec in E. contradiction.
Qed.

(** The place of a double that is a number in the order: the sign class
    first, then the exponent and the mantissa, turned around for the
    negative ones. *)
Definition rank (a : spec_float) : Z * Z * Z :=
  match a with
  | S754_zero _ => (0, 0, 0)%Z
  | S754_infinity s => (if s then -2 else 2, 0, 0)%Z
  | S754_nan => (0, 0, 0)%Z
  | S754_finite s m e =>
      if s then (-1, - e, - Z.pos m)%Z else (1, e, Z.pos m)%Z
  end.

Definition rank_le (p q : Z * Z * Z) : Prop :=
  let '(p1, p2, p3) := p in
  let '(q1, q2, q3) := q in
  (p1 < q1 \/ (p1 = q1 /\ (p2 < q2 \/ (p2 = q2 /\ p3 <= q3))))%Z.

Definition rank_lt (p q : Z * Z * Z) : Prop :=
  let '(p1, p2, p3) := p in
  let '(q1, q2, q3) := q in
  (p1 < q1 \/ (p1 = q1 /\ (p2 < q2 \/ (p2 = q2 /\ p3 < q3))))%Z.

Lemma compare_cont_spec (m n : positive) :
  match Pos.compare_cont Eq m n with
  | Lt => (Z.pos m < Z.pos n)%Z
  | Eq => m = n
  | Gt => (Z.pos n < Z.pos m)%Z
  end.
Proof.
  change (Pos.compare_cont Eq m n) with (Pos.compare m n).
  destruct (Pos.compare_spec m n); lia.
Qed.

Lemma SFleb_rank (a b : spec_float) :
  a <> S754_nan -> b <> S754_nan ->
  (SFleb a b = true <-> rank_le (rank a) (rank b)).
Proof.
  intros Ha Hb. unfold SFleb.
  destruct a as [s|s| |s m e]; destruct b as [s'|s'| |s' m' e'];
    try congruence; simpl; try destruct s; try destruct s'; simpl;
    try (split; [intros _; lia | reflexivity]);
    try (split; [discriminate | lia]).
  - pose proof (compare_cont_spec m m') as Hm.
    destruct (Z.compare_spec e e'); destruct (Pos.compare_cont Eq m m'); simpl;
      split; try discriminate; try reflexivity; try lia.
  - pose proof (compare_cont_spec m m') as Hm.
    destruct (Z.compare_spec e e'); destruct (Pos.compare_cont Eq m m'); simpl;
      split; try discriminate; try reflexivity; try lia.
Qed.

Lemma SFltb_rank (a b : spec_float) :
  a <> S754_nan -> b <> S754_nan ->
  (SFltb a b = true <-> rank_lt (rank a) (rank b)).
Proof.
  intros Ha Hb. unfold SFltb.
  destruct a as [s|s| |s m e]; destruct b as [s'|s'| |s' m' e'];
    try congruence; simpl; try destruct s; try destruct s'; simpl;
    try (split; [intros _; lia | reflexivity]);
    try (split; [discriminate | lia]).
  - pose proof (compare_cont_spec m m') as Hm.
    destruct (Z.compare_spec e e'); destruct (Pos.compare_cont Eq m m'); simpl;
      split; try discriminate; try reflexivity; try lia.
  - pose proof (compare_cont_spec m m') as Hm.
    destruct (Z.compare_spec e e'); destruct (Pos.compare_cont Eq m m'); simpl;
      split; try discriminate; try reflexivity; try lia.
Qed.

Lemma SFcompare_nan_l (b : spec_float) : SFcompare S754_nan b = None.
Proof. now destruct b. Qed.

Lemma SFcompare_nan_r (a : spec_float) : SFcompare a S754_nan = None.
Proof. now destruct a. Qed.

(** [<=] and [<] on numbers, through the ranks. *)
Lemma leb_rank (a b : number) :
  is_nan a = false -> is_nan b = false ->
  (leb a b = true <-> rank_le (rank (Prim2SF a)) (rank (Prim2SF b))).
Proof.
  intros Ha Hb. rewrite leb_spec. apply SFleb_rank; now apply not_nan_spec.
Qed.

Lemma ltb_rank (a b : number) :
  is_nan a = false -> is_nan b = false ->
  (ltb a b = true <-> rank_lt (rank (Prim2SF a)) (rank (Prim2SF b))).
Proof.
  intros Ha Hb. rewrite ltb_spec. apply SFltb_rank; now apply not_nan_spec.
Qed.

(** A comparison with NaN is false. *)
Lemma ltb_nan (a b : number) :
  is_nan a = true \/ is_nan b = true -> ltb a b = false.
Proof.
  intros H. rewrite ltb_spec. unfold SFltb.
  destruct H as [H|H]; apply is_nan_spec in H; rewrite H;
    now rewrite ?SFcompare_nan_l, ?SFcompare_nan_r.
Qed.

Lemma leb_nan (a b : number) :
  is_nan a = true \/ is_nan b = true -> leb a b = false.
Proof.
  intros H. rewrite leb_spec. unfold SFleb.
  destruct H as [H|H]; apply is_nan_spec in H; rewrite H;
    now rewrite ?SFcompare_nan_l, ?SFcompare_nan_r.
Qed.

Lemma rank_cases (p q : Z * Z * Z) : rank_lt p q \/ rank_le q p.
Proof. destruct p as [[p1 p2] p3], q as [[q1 q2] q3]. simpl. lia. Qed.

Lemma rank_lt_not_le (p q : Z * Z * Z) : rank_lt p q -> rank_le q p -> False.
Proof. destruct p as [[p1 p2] p3], q as [[q1 q2] q3]. simpl. lia. Qed.

Lemma rank_le_trans (p q r : Z * Z * Z) :
  rank_le p q -> rank_le q r -> rank_le p r.
Proof.
  destruct p as [[p1 p2] p3], q as [[q1 q2] q3], r as [[r1 r2] r3]. simpl. lia.
Qed.

Lemma rank_lt_le (p q : Z * Z * Z) : rank_lt p q -> rank_le p q.
Proof. destruct p as [[p1 p2] p3], q as [[q1 q2] q3]. simpl. lia. Qed.

Lemma rank_le_refl (p : Z * Z * Z) : rank_le p p.
Proof. destruct p as [[p1 p2] p3]. simpl. lia. Qed.

(** Of two numbers, when the first is not below the second, the second is
    at most the first. *)
Lemma not_ltb_leb (a b : number) :
  is_nan a = false -> is_nan b = false -> ltb a b = false -> leb b a = true.
Proof.
  intros Ha Hb H. apply leb_rank; try assumption.
  destruct (rank_cases (rank (Prim2SF a)) (rank (Prim2SF b))) as [Hlt|Hle];
    [|exact Hle].
  apply ltb_rank in Hlt; try assumption. congruence.
Qed.

Lemma leb_trans (a b c : number) :
  is_nan a = false -> is_nan b = false -> is_nan c = false ->
  leb a b = true -> leb b c = true -> leb a c = true.
Proof.
  intros Ha Hb Hc H1 H2.
  apply leb_rank in H1; try assumption. apply leb_rank in H2; try assumption.
  apply leb_rank; try assumption. eapply rank_le_trans; eassumption.
Qed.

Lemma leb_refl (a : number) : is_nan a = false -> leb a a = true.
Proof. intros Ha. apply leb_rank; try assumption. apply rank_le_refl. Qed.

Lemma ltb_irrefl (a : number) : ltb a a = false.
Proof.
  destruct (is_nan a) eqn:Ha; [apply ltb_nan; now left|].
  destruct (ltb a a) eqn:E; [|reflexivity].
  apply ltb_rank in E; try assumption.
  exfalso. eapply rank_lt_not_le; [exact E | apply rank_le_refl].
Qed.

Lemma classify_pos_zero (v : number) : is_pos_zero v = true -> v = 0%float.
Proof.
  unfold is_pos_zero. rewrite classify_spec. intros H. apply Prim2SF_inj.
  change (Prim2SF 0%float) with (S754_zero false).
  destruct (Prim2SF v) as [s|s| |s m e]; unfold SF64classify, SFclassify in H.
  - first [ destruct s; [discriminate H | reflexivity]
          | destruct s; [reflexivity | discriminate H] ].
  - destruct s; discriminate H.
  - discriminate H.
  - destruct s; destruct (Z.eqb _ _); discriminate H.
Qed.

Lemma classify_neg_zero (v : number) : is_neg_zero v = true -> v = (-0)%float.
Proof.
  unfold is_neg_zero. rewrite classify_spec. intros H. apply Prim2SF_inj.
  change (Prim2SF (-0)%float) with (S754_zero true).
  destruct (Prim2SF v) as [s|s| |s m e]; unfold SF64classify, SFclassify in H.
  - first [ destruct s; [discriminate H | reflexivity]
          | destruct s; [reflexivity | discriminate H] ].
  - destruct s; discriminate H.
  - discriminate H.
  - destruct s; destruct (Z.eqb _ _); discriminate H.
Qed.

(** One turn of the loop of [Math.max], and of [Math.min]. *)
Definition max_next (h n : number) : number :=
  let h1 := if is_pos_zero n && is_neg_zero h then n else h in
  if ltb h1 n then n else h1.

Definition min_next (l n : number) : number :=
  let l1 := if is_neg_zero n && is_pos_zero l then n else l in
  if ltb n l1 then n else l1.

Lemma Math_max_loop_cons (h n : number) (rest : list number) :
  Math_max_loop h (n :: rest)
  = if is_nan n then nan else Math_max_loop (max_next h n) rest.
Proof. reflexivity. Qed.

Lemma Math_min_loop_cons (l n : number) (rest : list number) :
  Math_min_loop l (n :: rest)
  = if is_nan n then nan else Math_min_loop (min_next l n) rest.
Proof. reflexivity. Qed.

(** The new greatest value is the old one or the argument, and both are at
    most it. *)
Lemma max_step (h n : number) :
  is_nan h = false -> is_nan n = false ->
  is_nan (max_next h n) = false /\
  (max_next h n = h \/ max_next h n = n) /\
  leb h (max_next h n) = true /\ leb n (max_next h n) = true.
Proof.
  intros Hh Hn. unfold max_next. cbv zeta.
  destruct (is_pos_zero n && is_neg_zero h) eqn:Ez.
  - apply andb_prop in Ez. destruct Ez as [Zn Zh].
    apply classify_pos_zero in Zn. apply classify_neg_zero in Zh. subst.
    repeat split; auto.
  - destruct (ltb h n) eqn:E.
    + repeat split; auto using ltb_leb, leb_refl.
    + repeat split; auto using not_ltb_leb, leb_refl.
Qed.

Lemma min_step (l n : number) :
  is_nan l = false -> is_nan n = false ->
  is_nan (min_next l n) = false /\
  (min_next l n = l \/ min_next l n = n) /\
  leb (min_next l n) l = true /\ leb (min_next l n) n = true.
Proof.
  intros Hl Hn. unfold min_next. cbv zeta.
  destruct (is_neg_zero n && is_pos_zero l) eqn:Ez.
  - apply andb_prop in Ez. destruct Ez as [Zn Zl].
    apply classify_neg_zero in Zn. apply classify_pos_zero in Zl. subst.
    repeat split; auto.
  - destruct (ltb n l) eqn:E.
    + repeat split; auto using ltb_leb, leb_refl.
    + repeat split; auto using not_ltb_leb, leb_refl.
Qed.

Lemma Math_max_loop_greatest (args : list number) (h : number) :
  is_nan h = false ->
  Forall (fun v => is_nan v = false) args ->
  is_nan (Math_max_loop h args) = false /\
  (Math_max_loop h args = h \/ In (Math_max_loop h args) args) /\
  leb h (Math_max_loop h args) = true /\
  Forall (fun v => leb v (Math_max_loop h args) = true) args.
Proof.
  intros Hh Hall. revert h Hh.
  induction Hall as [|n rest Hn _ IH]; intros h Hh.
  - simpl. repeat split; auto using leb_refl.
  - rewrite Math_max_loop_cons, Hn.
    destruct (max_step h n Hh Hn) as (N2 & C2 & Lh & Ln).
    destruct (IH (max_next h n) N2) as (Nr & Cr & Lr & Fr).
    repeat split.
    + exact Nr.
    + destruct Cr as [Cr|Cr]; [|right; now right].
      rewrite Cr. destruct C2 as [C2|C2]; [now left | right; now left].
    + apply (leb_trans h (max_next h n)); assumption.
    + constructor; [|exact Fr]. apply (leb_trans n (max_next h n)); assumption.
Qed.

Lemma Math_min_loop_least (args : list number) (l : number) :
  is_nan l = false ->
  Forall (fun v => is_nan v = false) args ->
  is_nan (Math_min_loop l args) = false /\
  (Math_min_loop l args = l \/ In (Math_min_loop l args) args) /\
  leb (Math_min_loop l args) l = true /\
  Forall (fun v => leb (Math_min_loop l args) v = true) args.
Proof.
  intros Hl Hall. revert l Hl.
  induction Hall as [|n rest Hn _ IH]; intros l Hl.
  - simpl. repeat split; auto using leb_refl.
  - rewrite Math_min_loop_cons, Hn.
    destruct (min_step l n Hl Hn) as (N2 & C2 & Ll & Ln).
    destruct (IH (min_next l n) N2) as (Nr & Cr & Lr & Fr).
    repeat split.
    + exact Nr.
    + destruct Cr as [Cr|Cr]; [|right; now right].
      rewrite Cr. destruct C2 as [C2|C2]; [now left | right; now left].
    + apply (leb_trans _ (min_next l n)); assumption.
    + constructor; [|exact Fr]. apply (leb_trans _ (min_next l n)); assumption.
Qed.

Lemma Math_max_loop_nan (args : list number) (h : number) :
  Exists (fun v => is_nan v = true) args -> Math_max_loop h args = nan.
Proof.
  intros H. revert h. induction H as [n rest Hn|n rest _ IH]; intros h;
    rewrite Math_max_loop_cons.
  - now rewrite Hn.
  - destruct (is_nan n); [reflexivity | apply IH].
Qed.

Lemma Math_min_loop_nan (args : list number) (l : number) :
  Exists (fun v => is_nan v = true) args -> Math_min_loop l args = nan.
Proof.
  intros H. revert l. induction H as [n rest Hn|n rest _ IH]; intros l;
    rewrite Math_min_loop_cons.
  - now rewrite Hn.
  - destruct (is_nan n); [reflexivity | apply IH].
Qed.

Lemma below_neg_infinity (v : number) :
  is_nan v = false -> leb v neg_infinity = true -> v = neg_infinity.
Proof.
  intros Hv H. apply leb_rank in H; [|assumption|reflexivity].
  apply Prim2SF_inj. change (Prim2SF neg_infinity) with (S754_infinity true) in *.
  apply not_nan_spec in Hv.
  destruct (Prim2SF v) as [s|s| |s m e]; try congruence;
    simpl in H; try destruct s; simpl in H; try lia; reflexivity.
Qed.

Lemma above_infinity (v : number) :
  is_nan v = false -> leb infinity v = true -> v = infinity.
Proof.
  intros Hv H. apply leb_rank in H; [|reflexivity|assumption].
  apply Prim2SF_inj. change (Prim2SF infinity) with (S754_infinity false) in *.
  apply not_nan_spec in Hv.
  destruct (Prim2SF v) as [s|s| |s m e]; try congruence;
    simpl in H; try destruct s; simpl in H; try lia; reflexivity.
Qed.

(** [Math.max] of numbers: one of them, and none is greater. *)
Lemma Math_max_greatest (args : list number) :
  args <> [] -> Forall (fun v => is_nan v = false) args ->
  is_nan (Math_max args) = false /\ In (Math_max args) args /\
  Forall (fun v => leb v (Math_max args) = true) args.
Proof.
  intros Hne Hall. unfold Math_max.
  destruct (Math_max_loop_greatest args neg_infinity eq_refl Hall)
    as (Nr & Cr & _ & Fr).
  repeat split; try assumption.
  destruct Cr as [Cr|Cr]; [|exact Cr].
  destruct args as [|v rest]; [congruence|].
  inversion Fr as [|? ? Hv _]; subst. inversion Hall as [|? ? Nv _]; subst.
  rewrite Cr in Hv. apply below_neg_infinity in Hv; [|exact Nv].
  left. congruence.
Qed.

Lemma Math_min_least (args : list number) :
  args <> [] -> Forall (fun v => is_nan v = false) args ->
  is_nan (Math_min args) = false /\ In (Math_min args) args /\
  Forall (fun v => leb (Math_min args) v = true) args.
Proof.
  intros Hne Hall. unfold Math_min.
  destruct (Math_min_loop_least args infinity eq_refl Hall)
    as (Nr & Cr & _ & Fr).
  repeat split; try assumption.
  destruct Cr as [Cr|Cr]; [|exact Cr].
  destruct args as [|v rest]; [congruence|].
  inversion Fr as [|? ? Hv _]; subst. inversion Hall as [|? ? Nv _]; subst.
  rewrite Cr in Hv. apply above_infinity in Hv; [|exact Nv].
  left. congruence.
Qed.

End DoubleOrder.

(** ** The extrema of a document *)

(** What [Math.min] and [Math.max] give for the values [f] takes on a list of
    points: the infinities on the empty list, NaN as soon as one value is
    NaN, and otherwise the least and the greatest of the values. *)
Lemma extrema_of_values (f : BWCurvePoint -> number) (ps : list BWCurvePoint) :
  (ps = [] ->
   Math_min (List.map f ps) = infinity /\
   Math_max (List.map f ps) = neg_infinity) /\
  (Exists (fun p => is_nan (f p) = true) ps ->
   Math_min (List.map f ps) = nan /\ Math_max (List.map f ps) = nan) /\
  (ps <> [] -> Forall (fun p => is_nan (f p) = false) ps ->
   (exists p, In p ps /\ f p = Math_min (List.map f ps)) /\
   (exists p, In p ps /\ f p = Math_max (List.map f ps)) /\
   Forall (fun p => leb (Math_min (List.map f ps)) (f p) = true /\
                    leb (f p) (Math_max (List.map f ps)) = true) ps).
Proof.
  split; [|split].
  - intros ->. split; reflexivity.
  - intros Hex.
    assert (Hex' : Exists (fun v => is_nan v = true) (List.map f ps)).
    { apply Exists_exists in Hex. destruct Hex as (p & Hp & Hn).
      apply Exists_exists. exists (f p). split; [now apply in_map | exact Hn]. }
    split; [apply Math_min_loop_nan | apply Math_max_loop_nan]; exact Hex'.
  - intros Hne Hall.
    assert (Hne' : List.map f ps <> []) by (destruct ps; [congruence | discriminate]).
    assert (Hall' : Forall (fun v => is_nan v = false) (List.map f ps)).
    { apply Forall_forall. intros v Hv. apply in_map_iff in Hv.
      destruct Hv as (p & <- & Hp). rewrite Forall_forall in Hall. now apply Hall. }
    destruct (Math_min_least _ Hne' Hall') as (_ & Imin & Fmin).
    destruct (Math_max_greatest _ Hne' Hall') as (_ & Imax & Fmax).
    apply in_map_iff in Imin. destruct Imin as (pmin & Emin & Hpmin).
    apply in_map_iff in Imax. destruct Imax as (pmax & Emax & Hpmax).
    split; [now exists pmin|]. split; [now exists pmax|].
    apply Forall_forall. intros p Hp.
    rewrite Forall_forall in Fmin, Fmax.
    split; [apply Fmin | apply Fmax]; now apply in_map.
Qed.

(** X19: [getMinX] and [getMaxX] of a document without points are
    [Infinity] and [-Infinity]; they are NaN as soon as the x of one point is
    NaN; otherwise each is the x of a point of the document, and the x of
    every point lies between the two. *)
Theorem extrema_of_x (this : BWCurve) :
  (points this = [] ->
   getMinX this = infinity /\ getMaxX this = neg_infinity) /\
  (Exists (fun p => is_nan (x p) = true) (points this) ->
   getMinX this = nan /\ getMaxX this = nan) /\
  (points this <> [] ->
   Forall (fun p => is_nan (x p) = false) (points this) ->
   (exists p, In p (points this) /\ x p = getMinX this) /\
   (exists p, In p (points this) /\ x p = getMaxX this) /\
   Forall (fun p => leb (getMinX this) (x p) = true /\
                    leb (x p) (getMaxX this) = true) (points this)).
Proof. apply (extrema_of_values x). Qed.

(** X20: the same for y: [getMinY] and [getMaxY] are [Infinity] and
    [-Infinity] without points, NaN as soon as one y is NaN, and otherwise
    the least and the greatest y of the document. *)
Theorem extrema_of_y (this : BWCurve) :
  (points this = [] ->
   getMinY this = infinity /\ getMaxY this = neg_infinity) /\
  (Exists (fun p => is_nan (y p) = true) (points this) ->
   getMinY this = nan /\ getMaxY this = nan) /\
  (points this <> [] ->
   Forall (fun p => is_nan (y p) = false) (points this) ->
   (exists p, In p (points this) /\ y p = getMinY this) /\
   (exists p, In p (points this) /\ y p = getMaxY this) /\
   Forall (fun p => leb (getMinY this) (y p) = true /\
                    leb (y p) (getMaxY this) = true) (points this)).
Proof. apply (extrema_of_values y). Qed.

(** ** fitInXRange and fitInYRange on a document of no extent *)

(** A double minus itself is zero, or NaN when it is not finite. *)
Lemma sub_self (v : number) : (v - v = 0 \/ v - v = nan)%float.
Proof.
  assert (H : Prim2SF (v - v)%float = S754_zero false
              \/ Prim2SF (v - v)%float = S754_nan).
  { rewrite sub_spec. unfold SF64sub.
    destruct (Prim2SF v) as [s|s| |s m e].
    - left. now destruct s.
    - right. now destruct s.
    - now right.
    - left. unfold SFsub. rewrite Z.min_id. unfold shl_align.
      rewrite Z.sub_diag. cbn [fst].
      replace (cond_Zopp s (Z.pos m) - cond_Zopp s (Z.pos m))%Z with 0%Z by lia.
      reflexivity. }
  destruct H as [H|H]; [left | right]; apply Prim2SF_inj; rewrite H; reflexivity.
Qed.

(** Zero times a quotient by zero is NaN. *)
Lemma zero_times_quotient_by_zero (d : number) : (0 * (d / 0) = nan)%float.
Proof.
  apply Prim2SF_inj. rewrite mul_spec, div_spec.
  change (Prim2SF 0) with (S754_zero false).
  change (Prim2SF nan) with S754_nan.
  unfold SF64mul, SF64div.
  destruct (Prim2SF d) as [s|s| |s m e]; reflexivity.
Qed.

Lemma nan_times (a : number) : (nan * a = nan)%float.
Proof.
  apply Prim2SF_inj. rewrite mul_spec. change (Prim2SF nan) with S754_nan.
  reflexivity.
Qed.

Lemma Forall_map_const {A B} (f : A -> B) (l : list A) (b : B) :
  Forall (fun a => f a = b) l -> List.map f l = List.repeat b (length l).
Proof.
  induction 1 as [|a l Ha _ IH]; simpl; [reflexivity|]. now rewrite Ha, IH.
Qed.

(** The extrema of a list that holds one value only. *)
Lemma extrema_of_constant (v : number) (n : nat) :
  Math_min (List.repeat v (S n)) = v /\ Math_max (List.repeat v (S n)) = v.
Proof.
  destruct (is_nan v) eqn:Hv.
  - pose proof (is_nan_eq v Hv) as ->.
    split; [apply Math_min_loop_nan | apply Math_max_loop_nan];
      now constructor.
  - assert (Hne : List.repeat v (S n) <> []) by discriminate.
    assert (Hall : Forall (fun u => is_nan u = false) (List.repeat v (S n))).
    { apply Forall_forall. intros u Hu. apply repeat_spec in Hu. now subst. }
    destruct (Math_min_least _ Hne Hall) as (_ & Imin & _).
    destruct (Math_max_greatest _ Hne Hall) as (_ & Imax & _).
    apply repeat_spec in Imin, Imax. now split.
Qed.

(** What the two steps of [fitInXRange] and [fitInYRange] make of a
    coordinate [v] that all the points share: the range divides by a greatest
    value that is zero or NaN, and the product is NaN. *)
Lemma fit_degenerate (v min max : number) (n : nat) :
  let least := Math_min (List.repeat v (S n)) in
  let greatest := Math_max (List.repeat (v - least)%float (S n)) in
  ((v - least) * ((max - min) / greatest) = nan)%float.
Proof.
  cbv zeta. destruct (extrema_of_constant v n) as [E1 _]. rewrite E1.
  replace (Math_max (List.repeat (v - v)%float (S n))) with (v - v)%float
    by (symmetry; apply extrema_of_constant).
  destruct (sub_self v) as [E|E]; rewrite E.
  - apply zero_times_quotient_by_zero.
  - apply nan_times.
Qed.

(** The x values [fitInXRange] leaves, from those it finds; the y values
    [fitInYRange] leaves. *)
Definition fitted (values : list number) (min max : number) : list number :=
  let least := Math_min values in
  let shifted := List.map (fun u => (u - least)%float) values in
  let greatest := Math_max shifted in
  List.map (fun u => (u * ((max - min) / greatest))%float) shifted.

Lemma fitInXRange_values (this : BWCurve) (min max : number) :
  List.map x (points (fitInXRange this min max))
  = fitted (List.map x (points this)) min max.
Proof.
  unfold fitInXRange, fitted, getMinX, getMaxX, scaleX. simpl.
  rewrite !List.map_map. reflexivity.
Qed.

Lemma fitInYRange_values (this : BWCurve) (min max : number) :
  List.map y (points (fitInYRange this min max))
  = fitted (List.map y (points this)) min max.
Proof.
  unfold fitInYRange, fitted, getMinY, getMaxY, scaleY. simpl.
  rewrite !List.map_map. reflexivity.
Qed.

Lemma fitted_constant (v min max : number) (n : nat) :
  fitted (List.repeat v (S n)) min max = List.repeat nan (S n).
Proof.
  unfold fitted. rewrite !map_repeat. f_equal.
  apply (fit_degenerate v min max n).
Qed.

(** X21: when all the points of a document have the same x (a document with
    one point, for one), [fitInXRange] turns the x of every point into NaN,
    whatever the range asked for; likewise [fitInYRange] when all the points
    have the same y. *)
Theorem fit_without_extent (this : BWCurve) (v min max : number) :
  points this <> [] ->
  (Forall (fun p => x p = v) (points this) ->
   List.map x (points (fitInXRange this min max))
   = List.repeat nan (pointCount this)) /\
  (Forall (fun p => y p = v) (points this) ->
   List.map y (points (fitInYRange this min max))
   = List.repeat nan (pointCount this)).
Proof.
  intros Hne. unfold pointCount.
  assert (Hlen : exists n, length (points this) = S n).
  { destruct (points this); [congruence | simpl; eauto]. }
  destruct Hlen as [n Hlen].
  split; intros Hall.
  - rewrite fitInXRange_values, (Forall_map_const x _ v Hall), Hlen.
    apply fitted_constant.
  - rewrite fitInYRange_values, (Forall_map_const y _ v Hall), Hlen.
    apply fitted_constant.
Qed.

Lemma fit_without_extent_one_point :
  (points (with_points new_BWCurve [pt 3 1 0]) <> [] /\
   Forall (fun p => x p = 3%float) (points (with_points new_BWCurve [pt 3 1 0]))) /\
  List.map x
    (points (fitInXRange (with_points new_BWCurve [pt 3 1 0]) 0%float 1%float))
  = [nan].
Proof.
  split; [split; [discriminate | repeat constructor]|].
  apply (proj1 (fit_without_extent (with_points new_BWCurve [pt 3 1 0])
                  3%float 0%float 1%float ltac:(discriminate))).
  repeat constructor.
Defined.

(** ** insertPointAtX and the order of the points *)

(** A list of numbers in which none is followed by a smaller one. *)
Fixpoint ascending (l : list number) : Prop :=
  match l with
  | a :: ((b :: _) as rest) => leb a b = true /\ ascending rest
  | _ => True
  end.

Lemma ascending_insert (before after : list number) (v : number) :
  ascending (before ++ after) ->
  Forall (fun u => leb u v = true) before ->
  match after with
  | [] => True
  | u :: _ => leb v u = true
  end ->
  ascending (before ++ v :: after).
Proof.
  induction before as [|b bs IH]; intros Hasc Hle Hhead.
  - simpl in *. destruct after; [exact I | now split].
  - inversion Hle as [|? ? Hb Hbs]; subst.
    destruct bs as [|b' bs'].
    + simpl in *. split; [exact Hb|].
      destruct after as [|u after']; [exact I|].
      split; [exact Hhead | apply Hasc].
    + simpl in Hasc. destruct Hasc as [Hbb Hrest].
      simpl. split; [exact Hbb|]. apply IH; assumption.
Qed.

(** X22: [insertPointAtX] adds the point and moves no other: the points split
    into those before the first one whose x is greater than the new x, none
    of which has a greater x, and the rest, and the new point goes between
    the two; it goes to the end when no point has a greater x, which is so
    when the new x is NaN. *)
Theorem insertPointAtX_places (this : BWCurve) (point : BWCurvePoint) :
  (exists before after : list BWCurvePoint,
     points this = before ++ after /\
     points (insertPointAtX this point) = before ++ point :: after /\
     Forall (fun p => ltb (x point) (x p) = false) before /\
     match after with
     | [] => True
     | p :: _ => ltb (x point) (x p) = true
     end) /\
  pointCount (insertPointAtX this point) = S (pointCount this) /\
  metadata (insertPointAtX this point) = metadata this /\
  (is_nan (x point) = true ->
   points (insertPointAtX this point) = points this ++ [point]).
Proof.
  destruct (insertPointAtX_split this point)
    as (before & after & Hsplit & Hins & Hbefore & Hafter & Hcount & Hmeta).
  split; [exists before, after; repeat split; assumption|].
  repeat split; try assumption.
  intros Hnan. rewrite Hins, Hsplit.
  destruct after as [|p after']; [now rewrite app_nil_r|].
  rewrite ltb_nan in Hafter by now left. discriminate Hafter.
Qed.

(** X23: [insertPointAtX] keeps a document in order: when no x is NaN, that
    of the new point included, and the x values of the points never go down
    from one point to the next, they still do not after the insertion. *)
Theorem insertPointAtX_keeps_order (this : BWCurve) (point : BWCurvePoint) :
  is_nan (x point) = false ->
  Forall (fun p => is_nan (x p) = false) (points this) ->
  ascending (List.map x (points this)) ->
  ascending (List.map x (points (insertPointAtX this point))).
Proof.
  intros Hpoint Hall Hasc.
  destruct (insertPointAtX_split this point)
    as (before & after & Hsplit & Hins & Hbefore & Hafter & _ & _).
  rewrite Hins, List.map_app. cbn [List.map].
  rewrite Hsplit, List.map_app in Hasc.
  rewrite Hsplit in Hall. apply Forall_app in Hall. destruct Hall as [Nb Na].
  apply ascending_insert; [exact Hasc | |].
  - apply Forall_forall. intros u Hu. apply in_map_iff in Hu.
    destruct Hu as (p & <- & Hp).
    rewrite Forall_forall in Hbefore, Nb.
    apply not_ltb_leb; auto.
  - destruct after as [|p after']; [exact I|]. cbn [List.map].
    now apply ltb_leb.
Qed.

Lemma insertPointAtX_keeps_order_unit_ramp :
  (is_nan (x (pt 0.5 1 0)) = false /\
   Forall (fun p => is_nan (x p) = false) (points unit_ramp) /\
   ascending (List.map x (points unit_ramp))) /\
  ascending (List.map x (points (insertPointAtX unit_ramp (pt 0.5 1 0)))).
Proof.
  assert (H1 : is_nan (x (pt 0.5 1 0)) = false) by reflexivity.
  assert (H2 : Forall (fun p => is_nan (x p) = false) (points unit_ramp))
    by (repeat constructor).
  assert (H3 : ascending (List.map x (points unit_ramp)))
    by (simpl; repeat split).
  split; [repeat split; assumption|].
  apply (insertPointAtX_keeps_order unit_ramp (pt 0.5 1 0) H1 H2 H3).
Defined.

(** ** One NaN spoils a coordinate *)

Lemma nan_minus (v : number) : (nan - v = nan)%float.
Proof.
  apply Prim2SF_inj. rewrite sub_spec. change (Prim2SF nan) with S754_nan.
  reflexivity.
Qed.

Lemma minus_nan (v : number) : (v - nan = nan)%float.
Proof.
  apply Prim2SF_inj. rewrite sub_spec. change (Prim2SF nan) with S754_nan.
  unfold SF64sub. now destruct (Prim2SF v).
Qed.

Lemma plus_nan (v : number) : (v + nan = nan)%float.
Proof.
  apply Prim2SF_inj. rewrite add_spec. change (Prim2SF nan) with S754_nan.
  unfold SF64add. now destruct (Prim2SF v).
Qed.

Lemma over_nan (v : number) : (v / nan = nan)%float.
Proof.
  apply Prim2SF_inj. rewrite div_spec. change (Prim2SF nan) with S754_nan.
  unfold SF64div. now destruct (Prim2SF v).
Qed.

Lemma map_to_constant {A B} (f : A -> B) (l : list A) (b : B) :
  (forall a, f a = b) -> List.map f l = List.repeat b (length l).
Proof.
  intros H. induction l as [|a l IH]; simpl; [reflexivity|].
  now rewrite H, IH.
Qed.

Lemma Exists_map_nan (f : BWCurvePoint -> number) (ps : list BWCurvePoint) :
  Exists (fun p => is_nan (f p) = true) ps ->
  Exists (fun v => is_nan v = true) (List.map f ps).
Proof.
  intros H. apply Exists_exists in H. destruct H as (p & Hp & Hn).
  apply Exists_exists. exists (f p). split; [now apply in_map | exact Hn].
Qed.

Lemma fitted_nan (values : list number) (min max : number) :
  Exists (fun v => is_nan v = true) values ->
  fitted values min max = List.repeat nan (length values).
Proof.
  intros Hex. unfold fitted.
  assert (E : Math_min values = nan) by now apply Math_min_loop_nan.
  rewrite E.
  assert (Hs : List.map (fun u => (u - nan)%float) values
               = List.repeat nan (length values))
    by (apply map_to_constant; apply minus_nan).
  rewrite Hs.
  destruct values as [|v rest]; [inversion Hex|].
  cbn [length List.repeat List.map].
  assert (G : Math_max (nan :: List.repeat nan (length rest)) = nan)
    by (apply Math_max_loop_nan; now constructor).
  rewrite G, over_nan, nan_times. f_equal.
  rewrite map_repeat. now rewrite nan_times.
Qed.

(** X24: a NaN among the x values of a document spoils them all: [reverse]
    and [fitInXRange] leave every x NaN, and the points [spliceCurve]
    appends all get a NaN x. Likewise a NaN among the y values makes
    [invert] and [fitInYRange] leave every y NaN. *)
Theorem nan_spreads (this : BWCurve) :
  (Exists (fun p => is_nan (x p) = true) (points this) ->
   List.map x (points (reverse this)) = List.repeat nan (pointCount this) /\
   (forall min max,
      List.map x (points (fitInXRange this min max))
      = List.repeat nan (pointCount this)) /\
   (forall curve,
      List.map x (skipn (pointCount this) (points (spliceCurve this curve)))
      = List.repeat nan (pointCount curve))) /\
  (Exists (fun p => is_nan (y p) = true) (points this) ->
   List.map y (points (invert this)) = List.repeat nan (pointCount this) /\
   (forall min max,
      List.map y (points (fitInYRange this min max))
      = List.repeat nan (pointCount this))).
Proof.
  unfold pointCount. split; intros Hex.
  - assert (Emax : getMaxX this = nan)
      by (apply Math_max_loop_nan; now apply Exists_map_nan).
    split; [|split].
    + unfold reverse. simpl. rewrite Emax, List.map_map. simpl.
      rewrite <- (length_rev (points this)).
      apply map_to_constant. intros p. apply nan_minus.
    + intros min max. rewrite fitInXRange_values, fitted_nan, length_map;
        [reflexivity | now apply Exists_map_nan].
    + intros curve.
      assert (Hne : points this <> []) by (intros E; rewrite E in Hex; inversion Hex).
      destruct (points curve) as [|c cs] eqn:Ec.
      * unfold spliceCurve. rewrite Ec. simpl. now rewrite skipn_all.
      * rewrite spliceCurve_nonempty by congruence.
        rewrite skipn_app, skipn_all, Nat.sub_diag. simpl skipn.
        rewrite app_nil_l, Emax, List.map_map, <- Ec. cbn [x with_x].
        apply (map_to_constant (fun p => (x p + nan)%float)). intros p.
        apply plus_nan.
  - assert (Emax : getMaxY this = nan)
      by (apply Math_max_loop_nan; now apply Exists_map_nan).
    split.
    + unfold invert. simpl. rewrite Emax, List.map_map. simpl.
      apply map_to_constant. intros p. apply nan_minus.
    + intros min max. rewrite fitInYRange_values, fitted_nan, length_map;
        [reflexivity | now apply Exists_map_nan].
Qed.

(** ** The codec: how the tags are written *)

Lemma stringToHex_concat (s : jsstring) :
  stringToHex s = concat (List.map toString16 s).
Proof. unfold stringToHex. apply join_empty_separator. Qed.

Lemma stringToHex_app (s t : jsstring) :
  stringToHex (s ++ t) = stringToHex s ++ stringToHex t.
Proof. now rewrite !stringToHex_concat, List.map_app, concat_app. Qed.

Lemma stringToHex_join (ts : list jsstring) :
  join (lit "20") (List.map (fun t => stringToHex t) ts)
  = stringToHex (join [32%N] ts).
Proof.
  induction ts as [|t ts IH]; [reflexivity|].
  destruct ts as [|t' ts']; [reflexivity|].
  cbn [List.map join] in *. rewrite IH, !stringToHex_app. reflexivity.
Qed.

Lemma join_length (sep sep' : jsstring) (ts : list jsstring) :
  length sep = length sep' ->
  length (join sep ts) = length (join sep' ts).
Proof.
  intros H. induction ts as [|t ts IH]; [reflexivity|].
  destruct ts as [|t' ts']; [reflexivity|].
  cbn [join] in *. rewrite !length_app, IH, H. reflexivity.
Qed.

Lemma tags_as_text (this : BWCurve) :
  get_tags this <> [] ->
  tagsLength this = toString16 (len (join [32%N] (get_tags this))) /\
  tagsHex this = stringToHex (join [32%N] (get_tags this)).
Proof.
  intros Hne. unfold tagsLength, tagsHex. split; [|apply stringToHex_join].
  destruct (get_tags this) as [|t ts]; [congruence|].
  cbn [length Nat.eqb]. unfold len.
  now rewrite (join_length (lit "0") [32%N]).
Qed.

Ltac tag_element Hlen Hhex :=
  lazymatch goal with
  | |- snd (retM _ _) = snd (retM _ _) => apply retM_ext
  | |- snd (hex _ _) = snd (hex _ _) => apply hex_ext
  | |- snd (hexOf tagsLength _) = snd (hexOf tagsLength _) =>
      apply hexOf_ext; exact Hlen
  | |- snd (hexOf tagsHex _) = snd (hexOf tagsHex _) =>
      apply hexOf_ext; exact Hhex
  | |- snd (hexOf _ _) = snd (hexOf _ _) => apply hexOf_ext; reflexivity
  end.

(** X25: the tags are written as one text, the tags joined by spaces, with
    the length of that text before it. So two lists of tags that join to
    the same text give the same buffer: a tag with a space in it is written
    as the two tags it splits into. *)
Theorem tags_written_joined (this : BWCurve) (ts ts' : list jsstring) :
  ts <> [] -> ts' <> [] ->
  join [32%N] ts = join [32%N] ts' ->
  (tagsLength (setTags this ts) = toString16 (len (join [32%N] ts)) /\
   tagsHex (setTags this ts) = stringToHex (join [32%N] ts)) /\
  snd (toBuffer (setTags this ts)) = snd (toBuffer (setTags this ts')).
Proof.
  intros Hne Hne' Hjoin.
  destruct (tags_as_text (setTags this ts) Hne) as [Hl Hh].
  destruct (tags_as_text (setTags this ts') Hne') as [Hl' Hh'].
  change (get_tags (setTags this ts)) with ts in *.
  change (get_tags (setTags this ts')) with ts' in *.
  split; [now split|].
  assert (Hlen : tagsLength (setTags this ts) = tagsLength (setTags this ts'))
    by (rewrite Hl, Hl', Hjoin; reflexivity).
  assert (Hhex : tagsHex (setTags this ts) = tagsHex (setTags this ts'))
    by (rewrite Hh, Hh', Hjoin; reflexivity).
  rewrite !toBuffer_eq. unfold bufferElements.
  change (points (setTags this ts)) with (points this).
  change (points (setTags this ts')) with (points this).
  apply arrayLiteral_ext.
  - rewrite !Forall_app.
    auto using readonly_headerAndMetadata, readonly_pointsBlock,
      readonly_trailerBlock.
  - unfold headerAndMetadata, pointsBlock, trailerBlock.
    rewrite !Forall_app. repeat split;
      repeat (apply Forall_cons; [tag_element Hlen Hhex|]); apply Forall_nil.
Qed.

Lemma tags_written_joined_space :
  ([lit "a b"] <> [] /\ [lit "a"; lit "b"] <> [] /\
   join [32%N] [lit "a b"] = join [32%N] [lit "a"; lit "b"]) /\
  snd (toBuffer (setTags new_BWCurve [lit "a b"]))
  = snd (toBuffer (setTags new_BWCurve [lit "a"; lit "b"])).
Proof.
  assert (H1 : [lit "a b"] <> []) by discriminate.
  assert (H2 : [lit "a"; lit "b"] <> []) by discriminate.
  assert (H3 : join [32%N] [lit "a b"] = join [32%N] [lit "a"; lit "b"])
    by reflexivity.
  split; [repeat split; assumption|].
  apply (tags_written_joined new_BWCurve [lit "a b"] [lit "a"; lit "b"] H1 H2 H3).
Defined.
